(** * Wallet tracker: burst classifier, key rotation and resilient fetchers

    A shallow embedding of [src/walletTracker.ts] and, in the module
    [Deployer], of [src/deployerWallet.ts].  The per-address state
    machine [isSpamActivity] is a function on the [walletStates] store; the
    asynchronous fetch layer ([rateLimitedDelay], [getNextApiKey],
    [fetchTransactions], [getCurrentBlockNumber]) runs in a small state and
    exception monad over an explicit world (clock, key cursor, timestamps of
    the credentials, scripted upstream).

    Numbers.  The program computes with JavaScript numbers.  Block numbers,
    unix times and millisecond clocks are integers far below 2^53, where the
    arithmetic of doubles is exact, so they are modelled by [Z].  The API
    delivers [blockNumber] and [timeStamp] as decimal strings and the program
    converts them with [Number]; a transaction is modelled after that
    conversion (non-numeric strings are outside the contract of the
    classifier). *)

From Stdlib Require Import ZArith Lia Ascii.
From stdpp Require Import base gmap strings list fin_maps sorting.

Local Open Scope Z_scope.

(** ** Data model *)

Module Tx.
(** [interface Transaction]; [blockNumber] and [timeStamp] hold the value
    [Number] gives for the string of the API. *)
Record Transaction := mk {
  hash : string;
  from : string;
  to : string;
  value : string;
  blockNumber : Z;
  timeStamp : Z;
  input : string
}.
End Tx.
Abbreviation Transaction := Tx.Transaction.

(** [interface WalletState] *)
Record WalletState := mkWalletState {
  isSpamming : bool;
  lastTxBlock : Z;
  lastNotifiedTxHash : string;
  lastStateChangeTime : Z
}.

(** The object literal a first call stores for an address. *)
Definition freshState : WalletState :=
  {| isSpamming := false; lastTxBlock := 0;
     lastNotifiedTxHash := ""; lastStateChangeTime := 0 |}.

(** The elements of [recentTxs]: [{ block, timestamp, hash }]. *)
Record RecentTx := mkRecentTx {
  block : Z;
  timestamp : Z;
  hash : string
}.

Inductive Transition := start | stop.

(** The object [isSpamActivity] returns; [None] is [null]. *)
Record Verdict := mkVerdict {
  shouldNotify : bool;
  type : option Transition
}.

Global Instance Transition_eq_dec : EqDecision Transition.
Proof. solve_decision. Defined.

Global Instance Verdict_eq_dec : EqDecision Verdict.
Proof. solve_decision. Defined.

(** ** The window of recent transactions *)

(** [tx => ({ block: Number(tx.blockNumber), timestamp: Number(tx.timeStamp),
    hash: tx.hash })] *)
Definition summarize (tx : Transaction) : RecentTx :=
  {| block := Tx.blockNumber tx; timestamp := Tx.timeStamp tx;
     hash := Tx.hash tx |}.

(** [Array.prototype.sort] is stable, and [(a, b) => b.block - a.block] is a
    consistent comparator on integers: the result is the stable arrangement
    by decreasing block.  [insert_desc a l] puts [a] in front of the first
    element whose block is not larger than its own, so that an element
    inserted from the left end of the array stays in front of its equals. *)
Fixpoint insert_desc (a : RecentTx) (l : list RecentTx) : list RecentTx :=
  match l with
  | [] => [a]
  | b :: l' => if block b <=? block a then a :: l else b :: insert_desc a l'
  end.

Definition sort_desc (l : list RecentTx) : list RecentTx :=
  foldr insert_desc [] l.

(** [a] may stand in front of [b] in an array sorted by decreasing block. *)
Definition descending (a b : RecentTx) : Prop := block b <= block a.

(** The transactions come newest first, as [sort: 'desc'] asks the API. *)
Definition newestFirst (transactions : list Transaction) : Prop :=
  Sorted (fun a b => Tx.blockNumber b <= Tx.blockNumber a) transactions.

(** [transactions.slice(0, 3).map(...).sort(...)] *)
Definition recentTxs (transactions : list Transaction) : list RecentTx :=
  sort_desc (summarize <$> take 3 transactions).

(** ** The classifier *)

Definition noChange : Verdict := {| shouldNotify := false; type := None |}.
Definition notify (t : Transition) : Verdict :=
  {| shouldNotify := true; type := Some t |}.

(** The body of [isSpamActivity] after [const state = walletStates[address]]:
    [state] is the stored object itself, every assignment to one of its
    fields is an update of the store, so the body is a function from the
    object to the object it has become, with the returned verdict. *)
Definition classify (now : Z) (recent : list RecentTx) (currentBlock : Z)
    (state : WalletState) : WalletState * Verdict :=
  match recent with
  | [] => (state, noChange)
  | top :: _ =>
    if String.eqb (hash top) (lastNotifiedTxHash state) then (state, noChange)
    else if now - lastStateChangeTime state <? 30 then (state, noChange)
    else
      let blocksSinceLastTx := currentBlock - block top in
      let transit (spamming : bool) :=
        {| isSpamming := spamming;
           lastTxBlock := block top;
           lastNotifiedTxHash := hash top;
           lastStateChangeTime := now |} in
      let track :=
        {| isSpamming := isSpamming state;
           lastTxBlock := block top;
           lastNotifiedTxHash := lastNotifiedTxHash state;
           lastStateChangeTime := lastStateChangeTime state |} in
      if isSpamming state then
        if 20 <? blocksSinceLastTx then (transit false, notify stop)
        else (state, noChange)
      else
        match recent with
        | t0 :: t1 :: t2 :: _ =>
          let blockGaps := [block t0 - block t1; block t1 - block t2] in
          let isActiveSpam := forallb (fun gap => gap <=? 3) blockGaps in
          if isActiveSpam && (blocksSinceLastTx <=? 3)
          then (transit true, notify start)
          else (track, noChange)
        | _ => (track, noChange)
        end
  end.

(** [walletStates[address]] after the lazy creation at the top of the
    function. *)
Definition stateOf (address : string) (walletStates : gmap string WalletState)
    : WalletState :=
  default freshState (walletStates !! address).

(** [isSpamActivity(transactions, address, currentBlock)].  [now] is the
    reading [Math.floor(Date.now() / 1000)] of the call; [walletStates] is the
    global record the function reads and updates. *)
Definition isSpamActivity (now : Z) (transactions : list Transaction)
    (address : string) (currentBlock : Z)
    (walletStates : gmap string WalletState)
    : gmap string WalletState * Verdict :=
  let walletStates :=
    match walletStates !! address with
    | None => <[address := freshState]> walletStates
    | Some _ => walletStates
    end in
  let state := stateOf address walletStates in
  let '(state', verdict) :=
    classify now (recentTxs transactions) currentBlock state in
  (<[address := state']> walletStates, verdict).

(** ** Sequences of classification calls *)

(** One call of the classifier with everything it reads from outside:
    the clock, the fetched transactions, the address and the chain height. *)
Record Call := mkCall {
  at_time : Z;
  txs : list Transaction;
  address : string;
  height : Z
}.

(** What a caller can deliver for a verdict: the address, the hash the
    classifier recorded for the transition, and the kind of transition. *)
Record Notification := mkNotification {
  n_address : string;
  n_hash : string;
  n_type : Transition
}.

Global Instance Notification_eq_dec : EqDecision Notification.
Proof. solve_decision. Defined.

Definition notificationOf (c : Call) (v : Verdict) : list Notification :=
  match type v, recentTxs (txs c) with
  | Some t, top :: _ =>
    if shouldNotify v
    then [ {| n_address := address c; n_hash := hash top; n_type := t |} ]
    else []
  | _, _ => []
  end.

(** The calls are made one after the other on the same store; the
    notifications are collected in the order of the calls. *)
Fixpoint monitor (calls : list Call) (walletStates : gmap string WalletState)
    : gmap string WalletState * list Notification :=
  match calls with
  | [] => (walletStates, [])
  | c :: calls' =>
    let '(ws1, v) :=
      isSpamActivity (at_time c) (txs c) (address c) (height c) walletStates in
    let '(ws2, ns) := monitor calls' ws1 in
    (ws2, notificationOf c v ++ ns)
  end.

(** The same for the object of one address on its own. *)
Fixpoint monitorOne (calls : list Call) (state : WalletState)
    : WalletState * list Notification :=
  match calls with
  | [] => (state, [])
  | c :: calls' =>
    let '(s1, v) :=
      classify (at_time c) (recentTxs (txs c)) (height c) state in
    let '(s2, ns) := monitorOne calls' s1 in
    (s2, notificationOf c v ++ ns)
  end.

(** The hash on top of the window of a call, when it has one. *)
Definition topHash (c : Call) : list string :=
  match recentTxs (txs c) with
  | [] => []
  | top :: _ => [hash top]
  end.

Fixpoint drop_while {A} (p : A -> bool) (l : list A) : list A :=
  match l with
  | [] => []
  | x :: l' => if p x then drop_while p l' else l
  end.

(** A hash that has been replaced on top of the window never comes back:
    behind the run of equal hashes that starts the list, the hash does not
    occur again. *)
Fixpoint non_recurring (l : list string) : bool :=
  match l with
  | [] => true
  | h :: l' =>
    negb (bool_decide (h ∈ drop_while (String.eqb h) l')) && non_recurring l'
  end.

(** The calls of a sequence that are for address [a]. *)
Definition callsFor (a : string) (calls : list Call) : list Call :=
  filter (fun c => address c = a) calls.

(** The notifications come in turns: [stop] first when the address is
    bursting, [start] first when it is idle. *)
Fixpoint alternating (spamming : bool) (l : list Transition) : Prop :=
  match l with
  | [] => True
  | t :: l' =>
    t = (if spamming then stop else start) /\ alternating (negb spamming) l'
  end.

(** ** The world of the fetch layer *)

(** [API_SETTINGS] *)
Definition MAX_RETRIES : nat := 3.
Definition RETRY_DELAY : Z := 1000.
Definition RATE_LIMIT_DELAY : Z := 50.

(** What [axios.get] delivers for [action: 'txlist']: the promise is
    rejected, or [response.data] has a [status] and a [result] ([None] when
    [result] is missing or falsy). *)
Inductive TxReply :=
| TxRejected
| TxData (status : string) (result : option (list Transaction)).

(** For [action: 'eth_blockNumber']: rejected, or a [result] that is missing
    or falsy ([None]), or a string that [parseInt(., 16)] reads as [n]. *)
Inductive HeightReply :=
| HeightRejected
| HeightData (result : option Z).

(** Everything the program does not decide: the credentials of the
    environment variable, the reply to the n-th request, how long the n-th
    request takes and how late the n-th timer fires (both in milliseconds;
    a timer never fires early). *)
Record Outside := mkOutside {
  API_KEYS : list string;
  txlist : nat -> string -> TxReply;
  eth_blockNumber : nat -> HeightReply;
  latency : nat -> N;
  late : nat -> N
}.

(** What can be observed of a run, most recent first. *)
Inductive Event :=
| Slept (ms : Z)
| Requested (apikey : option string)
| Complained.

(** A number the program uses as an index: [Some i], or [None] for [NaN]
    (the cursor becomes [NaN] when the pool of credentials is empty, by
    [1 % 0]). *)
Definition Index : Type := option nat.

(** The module-level variables of the program with the clock of
    [Date.now()] (milliseconds), the counters that index [Outside] and the
    trace of the events.  The array [lastApiCalls] is, as every array of the
    language, an object from indices to values: reading an index that was
    never written gives [undefined] ([None]), writing one creates it. *)
Record World := mkWorld {
  clock : Z;
  currentApiKeyIndex : Index;
  lastApiCalls : gmap Index Z;
  walletStates : gmap string WalletState;
  requests : nat;
  timers : nat;
  trace : list Event
}.

(** [Array(n).fill(v)] *)
Definition Array_fill (n : nat) (v : Z) : gmap Index Z :=
  list_to_map ((fun i => (Some i, v)) <$> seq 0 n).

(** The module as it is loaded: [currentApiKeyIndex = 0],
    [lastApiCalls = Array(API_KEYS.length).fill(0)], [walletStates = {}]. *)
Definition initialWorld (out : Outside) (t0 : Z) : World :=
  {| clock := t0; currentApiKeyIndex := Some O;
     lastApiCalls := Array_fill (length (API_KEYS out)) 0;
     walletStates := ∅; requests := 0; timers := 0; trace := [] |}.

(** A computation returns a value or throws, and leaves a world. *)
Inductive Res (A : Type) :=
| Returned (a : A)
| Thrown (error : string).
Arguments Returned {A} a.
Arguments Thrown {A} error.

Definition M (A : Type) : Type := World -> Res A * World.

Global Instance M_ret : MRet M := fun A a w => (Returned a, w).

Global Instance M_bind : MBind M := fun A B f m w =>
  match m w with
  | (Returned a, w') => f a w'
  | (Thrown e, w') => (Thrown e, w')
  end.

Definition throw {A} (e : string) : M A := fun w => (Thrown e, w).

(** [try { body } catch (error) { handler }] *)
Definition try_catch {A} (body : M A) (handler : string -> M A) : M A :=
  fun w =>
    match body w with
    | (Returned a, w') => (Returned a, w')
    | (Thrown e, w') => handler e w'
    end.

Definition gets {A} (f : World -> A) : M A := fun w => (Returned (f w), w).

Definition Date_now : M Z := gets clock.

(** [console.error(...)] *)
Definition console_error : M unit := fun w =>
  (Returned tt,
   {| clock := clock w; currentApiKeyIndex := currentApiKeyIndex w;
      lastApiCalls := lastApiCalls w; walletStates := walletStates w;
      requests := requests w; timers := timers w;
      trace := Complained :: trace w |}).

(** [String.prototype.toLowerCase] on the characters of an address
    (ASCII letters; the other characters of a hexadecimal address are left
    as they are). *)
Definition lower_ascii (c : Ascii.ascii) : Ascii.ascii :=
  let n := Ascii.nat_of_ascii c in
  if ((65 <=? n) && (n <=? 90))%nat then Ascii.ascii_of_nat (n + 32) else c.

Fixpoint toLowerCase (s : string) : string :=
  match s with
  | EmptyString => EmptyString
  | String c s' => String (lower_ascii c) (toLowerCase s')
  end.

(** [Math.max(...values)]; [None] is [-Infinity], the maximum of no value. *)
Definition Math_max (values : list Z) : option Z :=
  foldr (fun x acc => Some (match acc with None => x | Some y => Z.max x y end))
        None values.

(** [Object.values(walletStates)] *)
Definition Object_values (ws : gmap string WalletState) : list WalletState :=
  snd <$> map_to_list ws.

Section Fetching.

Variable out : Outside.

(** [delay(ms)]: the timer fires [ms] milliseconds later (a negative
    delay counts as none) or later than that. *)
Definition delay (ms : Z) : M unit := fun w =>
  (Returned tt,
   {| clock := clock w + Z.max 0 ms + Z.of_N (late out (timers w));
      currentApiKeyIndex := currentApiKeyIndex w;
      lastApiCalls := lastApiCalls w; walletStates := walletStates w;
      requests := requests w; timers := S (timers w);
      trace := Slept ms :: trace w |}).

(** The world after a request: it took its time and was counted. *)
Definition requested (apikey : option string) (w : World) : World :=
  {| clock := clock w + Z.of_N (latency out (requests w));
     currentApiKeyIndex := currentApiKeyIndex w;
     lastApiCalls := lastApiCalls w; walletStates := walletStates w;
     requests := S (requests w); timers := timers w;
     trace := Requested apikey :: trace w |}.

(** [axios.get(url, { params: { action: 'txlist', address, apikey } })],
    up to [response.data]. *)
Definition axios_get_txlist (address : string) (apikey : option string)
    : M (string * option (list Transaction)) := fun w =>
  match txlist out (requests w) address with
  | TxRejected => (Thrown "Network Error", requested apikey w)
  | TxData status result => (Returned (status, result), requested apikey w)
  end.

(** [axios.get(url, { params: { action: 'eth_blockNumber', apikey } })],
    up to [response.data.result]. *)
Definition axios_get_blockNumber (apikey : option string)
    : M (option Z) := fun w =>
  match eth_blockNumber out (requests w) with
  | HeightRejected => (Thrown "Network Error", requested apikey w)
  | HeightData result => (Returned result, requested apikey w)
  end.

(** [(i + 1) % n] on numbers: [NaN] for [NaN] and for a division by 0. *)
Definition next_index (i : Index) (n : nat) : Index :=
  match i with
  | Some i => if (n =? 0)%nat then None else Some ((i + 1) `mod` n)%nat
  | None => None
  end.

(** [getNextApiKey()]; the key is [undefined] ([None]) when the cursor is
    not an index of [API_KEYS]. *)
Definition getNextApiKey : M (option string) := fun w =>
  let key := i ← currentApiKeyIndex w; API_KEYS out !! i in
  (Returned key,
   {| clock := clock w;
      currentApiKeyIndex :=
        next_index (currentApiKeyIndex w) (length (API_KEYS out));
      lastApiCalls := lastApiCalls w; walletStates := walletStates w;
      requests := requests w; timers := timers w; trace := trace w |}).

(** [lastApiCalls[keyIndex] = t] *)
Definition recordCall (keyIndex : Index) (t : Z) : M unit := fun w =>
  (Returned tt,
   {| clock := clock w; currentApiKeyIndex := currentApiKeyIndex w;
      lastApiCalls := <[keyIndex := t]> (lastApiCalls w);
      walletStates := walletStates w;
      requests := requests w; timers := timers w; trace := trace w |}).

(** [rateLimitedDelay()].  When [lastApiCalls[keyIndex]] is [undefined],
    [timeSinceLastCall] is [NaN], the comparison fails and there is no
    delay. *)
Definition rateLimitedDelay : M unit :=
  now ← Date_now;
  keyIndex ← gets currentApiKeyIndex;
  last ← gets (fun w => lastApiCalls w !! keyIndex);
  match last with
  | Some last =>
    let timeSinceLastCall := now - last in
    if timeSinceLastCall <? RATE_LIMIT_DELAY
    then delay (RATE_LIMIT_DELAY - timeSinceLastCall)
    else mret tt
  | None => mret tt
  end;;
  t ← Date_now;
  recordCall keyIndex t.

(** What [fetchTransactions] does inside [try]. *)
Definition fetchAttempt (address : string) : M (list Transaction) :=
  rateLimitedDelay;;
  apikey ← getNextApiKey;
  '(status, result) ← axios_get_txlist address apikey;
  match result with
  | Some result =>
    if String.eqb status "1"
    then mret (filter (fun tx => toLowerCase (Tx.to tx) = toLowerCase address)
                      result)
    else mret []
  | None => mret []
  end.

(** [fetchTransactions(address, retryCount)].  The function calls itself
    with [retryCount + 1] while [retryCount < MAX_RETRIES]; [fuel] bounds
    the depth of these calls, and [fetchTransactions] gives as much of it
    as the test can ask for ([fetchTransactions_unfold] is the equation of
    the source, without fuel). *)
Fixpoint fetchTransactions_fuel (fuel : nat) (address : string)
    (retryCount : nat) : M (list Transaction) :=
  try_catch (fetchAttempt address)
    (fun error =>
       if (retryCount <? MAX_RETRIES)%nat then
         match fuel with
         | S fuel' =>
           delay (RETRY_DELAY * (Z.of_nat retryCount + 1));;
           fetchTransactions_fuel fuel' address (retryCount + 1)
         | O => throw "out of fuel"
         end
       else
         console_error;;
         mret []).

Definition fetchTransactions (address : string) (retryCount : nat)
    : M (list Transaction) :=
  fetchTransactions_fuel (MAX_RETRIES - retryCount) address retryCount.

(** What [getCurrentBlockNumber] does inside [try]. *)
Definition heightAttempt : M Z :=
  rateLimitedDelay;;
  apikey ← getNextApiKey;
  result ← axios_get_blockNumber apikey;
  match result with
  | None => console_error;; throw "Invalid API response"
  | Some n => mret n
  end.

(** The estimate [getCurrentBlockNumber] returns when it gives up. *)
Definition lastKnownEstimate (ws : gmap string WalletState) : Z :=
  let lastKnownBlock :=
    Math_max (filter (fun block => 0 < block)
                     (lastTxBlock <$> Object_values ws)) in
  match lastKnownBlock with
  | Some b => if 0 <? b then b else 24000000
  | None => 24000000
  end.

(** [getCurrentBlockNumber(retryCount)] *)
Fixpoint getCurrentBlockNumber_fuel (fuel : nat) (retryCount : nat) : M Z :=
  try_catch heightAttempt
    (fun error =>
       if (retryCount <? MAX_RETRIES)%nat then
         match fuel with
         | S fuel' =>
           delay (RETRY_DELAY * (Z.of_nat retryCount + 1));;
           getCurrentBlockNumber_fuel fuel' (retryCount + 1)
         | O => throw "out of fuel"
         end
       else
         console_error;;
         ws ← gets walletStates;
         mret (lastKnownEstimate ws)).

Definition getCurrentBlockNumber (retryCount : nat) : M Z :=
  getCurrentBlockNumber_fuel (MAX_RETRIES - retryCount) retryCount.

(** ** Acquisitions of a credential *)

(** Time that passes between two acquisitions. *)
Definition elapse (dt : N) : M unit := fun w =>
  (Returned tt,
   {| clock := clock w + Z.of_N dt;
      currentApiKeyIndex := currentApiKeyIndex w;
      lastApiCalls := lastApiCalls w; walletStates := walletStates w;
      requests := requests w; timers := timers w; trace := trace w |}).

(** One acquisition as the fetchers make it: [await rateLimitedDelay()],
    then [getNextApiKey()].  It is reported with the index of the
    credential, the credential and the time [rateLimitedDelay] recorded
    for it. *)
Record Acquisition := mkAcquisition {
  keyIndex : Index;
  key : option string;
  recorded : option Z
}.

Definition acquire : M Acquisition :=
  i ← gets currentApiKeyIndex;
  rateLimitedDelay;;
  t ← gets (fun w => lastApiCalls w !! i);
  k ← getNextApiKey;
  mret {| keyIndex := i; key := k; recorded := t |}.

(** Acquisitions made one after the other, each finished before the next
    begins, [dt] milliseconds after the one before: the attempts of one
    fetcher, or the height and the fetch of a batch for a single wallet.
    The fetches of a larger batch overlap; [overlappingAcquisitions]
    further down is their run. *)
Fixpoint acquisitions (gaps : list N) : M (list Acquisition) :=
  match gaps with
  | [] => mret []
  | dt :: gaps' =>
    elapse dt;;
    a ← acquire;
    rest ← acquisitions gaps';
    mret (a :: rest)
  end.

End Fetching.

(** The total of the waiting a trace asked for: [delay(ms)] waits [ms]
    milliseconds, and not at all when [ms] is negative. *)
Definition slept (tr : list Event) : Z :=
  foldr (fun e acc => match e with Slept ms => Z.max 0 ms + acc | _ => acc end)
        0 tr.

(** The number of requests in a trace. *)
Definition requestCount (tr : list Event) : nat :=
  foldr (fun e acc => match e with Requested _ => S acc | _ => acc end) O tr.

(** [w'] comes after [w] by the events [new] (most recent first): the
    requests are counted, the clock has advanced by the waiting at least,
    and the states of the wallets are untouched. *)
Definition follows (w w' : World) (new : list Event) : Prop :=
  trace w' = new ++ trace w /\
  requests w' = (requests w + requestCount new)%nat /\
  clock w + slept new <= clock w' /\
  walletStates w' = walletStates w.

(** What [fetchTransactions] returns for a reply that is not an error. *)
Definition rowsFor (address : string) (status : string)
    (result : option (list Transaction)) : list Transaction :=
  match result with
  | Some result =>
    if String.eqb status "1"
    then filter (fun tx => toLowerCase (Tx.to tx) = toLowerCase address) result
    else []
  | None => []
  end.

(** [1 + 2 + ... + k] *)
Fixpoint triangle (k : nat) : Z :=
  match k with
  | O => 0
  | S k' => triangle k' + Z.of_nat k
  end.

(** ** Fetches that are started together *)

(** [monitorWalletBatch] starts its fetches together:
    [Promise.all(addresses.map(address => fetchTransactions(address)))].
    Every call of [fetchTransactions] runs until its first [await] that
    has to wait, then the next call begins; the fetches go on when the
    batch has nothing more to run, in the order in which what they wait for
    is there.  Between two [await]s a fetch is not interrupted. *)

(** A timer of [setTimeout]: its number and the time it is due. *)
Record Timer := mkTimer {
  timer_id : nat;
  due : Z
}.

(** Where a fetch is suspended in its acquisition.  [AtDelay]: inside
    [rateLimitedDelay], at [await delay(...)], with the index it has read
    and the timer it waits for.  [AtReturn]: at [await rateLimitedDelay()]
    in the fetcher, [rateLimitedDelay] having run to its end without a
    delay and recorded the time [t]. *)
Inductive Suspended :=
| AtDelay (keyIndex : Index) (timer : Timer)
| AtReturn (keyIndex : Index) (t : Z).

Definition waitsForTimer (s : Suspended) : bool :=
  match s with AtDelay _ _ => true | AtReturn _ _ => false end.

Definition dueOf (s : Suspended) : Z :=
  match s with AtDelay _ timer => due timer | AtReturn _ t => t end.

(** The timers fire by due time, and those due together in the order in
    which they were set. *)
Fixpoint insert_due (s : Suspended) (l : list Suspended) : list Suspended :=
  match l with
  | [] => [s]
  | s' :: l' => if dueOf s <? dueOf s' then s :: l else s' :: insert_due s l'
  end.

Definition by_due (l : list Suspended) : list Suspended :=
  foldr insert_due [] l.

(** The order in which the suspended fetches go on: first those whose
    awaited function has returned (their continuations are queued at once),
    then those that wait for a timer. *)
Definition resumeOrder (tasks : list Suspended) : list Suspended :=
  filter (fun s => waitsForTimer s = false) tasks
  ++ by_due (filter (fun s => waitsForTimer s = true) tasks).

Section Overlapping.

Variable out : Outside.

(** [setTimeout(resolve, ms)] in [delay(ms)]: the timer is set, nothing
    waits yet. *)
Definition setTimeout (ms : Z) : M Timer := fun w =>
  (Returned {| timer_id := timers w; due := clock w + Z.max 0 ms |},
   {| clock := clock w; currentApiKeyIndex := currentApiKeyIndex w;
      lastApiCalls := lastApiCalls w; walletStates := walletStates w;
      requests := requests w; timers := S (timers w);
      trace := Slept ms :: trace w |}).

(** The timer fires and the fetch that awaits it goes on: it is the due
    time, or later by the lateness of the timer, or later still when the
    program was busy until then. *)
Definition fired (timer : Timer) : M unit := fun w =>
  (Returned tt,
   {| clock := Z.max (clock w)
                     (due timer + Z.of_N (late out (timer_id timer)));
      currentApiKeyIndex := currentApiKeyIndex w;
      lastApiCalls := lastApiCalls w; walletStates := walletStates w;
      requests := requests w; timers := timers w; trace := trace w |}).

(** [fetchTransactions(address)] up to where it is suspended first: the
    beginning of [rateLimitedDelay()]. *)
Definition startFetch : M Suspended :=
  now ← Date_now;
  keyIndex ← gets currentApiKeyIndex;
  last ← gets (fun w => lastApiCalls w !! keyIndex);
  let undelayed :=
    t ← Date_now;
    recordCall keyIndex t;;
    mret (AtReturn keyIndex t) in
  match last with
  | Some last =>
    let timeSinceLastCall := now - last in
    if timeSinceLastCall <? RATE_LIMIT_DELAY
    then
      timer ← setTimeout (RATE_LIMIT_DELAY - timeSinceLastCall);
      mret (AtDelay keyIndex timer)
    else undelayed
  | None => undelayed
  end.

(** The fetch goes on, up to [getNextApiKey()] in the parameters of
    [axios.get]: after the timer, the rest of [rateLimitedDelay], which
    records the time under the index that was read at the start; then the
    credential is taken. *)
Definition resumeFetch (s : Suspended) : M Acquisition :=
  match s with
  | AtDelay keyIndex timer =>
    fired timer;;
    t ← Date_now;
    recordCall keyIndex t;;
    key ← getNextApiKey out;
    mret {| keyIndex := keyIndex; key := key; recorded := Some t |}
  | AtReturn keyIndex t =>
    key ← getNextApiKey out;
    mret {| keyIndex := keyIndex; key := key; recorded := Some t |}
  end.

Fixpoint startAll (addresses : list string) : M (list Suspended) :=
  match addresses with
  | [] => mret []
  | _ :: addresses' =>
    s ← startFetch;
    rest ← startAll addresses';
    mret (s :: rest)
  end.

Fixpoint resumeAll (tasks : list Suspended) : M (list Acquisition) :=
  match tasks with
  | [] => mret []
  | s :: tasks' =>
    a ← resumeFetch s;
    rest ← resumeAll tasks';
    mret (a :: rest)
  end.

(** The acquisitions of the fetches of a batch, in the order in which the
    credentials are taken. *)
Definition overlappingAcquisitions (addresses : list string)
    : M (list Acquisition) :=
  tasks ← startAll addresses;
  resumeAll (resumeOrder tasks).

(** The beginning of [monitorWalletBatch(addresses)]: the height, then the
    fetches. *)
Definition batchAcquisitions (addresses : list string)
    : M (list Acquisition) :=
  currentBlock ← getCurrentBlockNumber out 0;
  if currentBlock =? 0 then mret []
  else overlappingAcquisitions addresses.

End Overlapping.

(** Of two acquisitions of the same credential, the later one records a
    time that is [RATE_LIMIT_DELAY] after the time of the earlier one, or
    more. *)
Definition spaced (acqs : list Acquisition) : Prop :=
  forall n m an am tn tm, (n < m)%nat ->
    acqs !! n = Some an -> acqs !! m = Some am ->
    key an = key am ->
    recorded an = Some tn -> recorded am = Some tm ->
    tn + RATE_LIMIT_DELAY <= tm.

(** An environment with one credential; the height of the chain is told
    after 120 milliseconds, and the timers are on time. *)
Definition oneKey : Outside :=
  {| API_KEYS := ["key0"];
     txlist := fun _ _ => TxData "1" (Some []);
     eth_blockNumber := fun _ => HeightData (Some 25165824);
     latency := fun _ => 120%N;
     late := fun _ => 0%N |}.

(** The same with five credentials. *)
Definition fiveKeys : Outside :=
  {| API_KEYS := ["key0"; "key1"; "key2"; "key3"; "key4"];
     txlist := txlist oneKey;
     eth_blockNumber := eth_blockNumber oneKey;
     latency := latency oneKey;
     late := late oneKey |}.

(** ** Vocabulary of the statements *)

(** The call gets past the three early returns of [isSpamActivity]: there
    is a transaction, [top] is the first of the window, its hash is not the
    one notified last, and the last change of state is at least 30 seconds
    old. *)
Definition passesGuards (now : Z) (transactions : list Transaction)
    (a : string) (ws : gmap string WalletState) (top : RecentTx) : Prop :=
  head (recentTxs transactions) = Some top /\
  hash top <> lastNotifiedTxHash (stateOf a ws) /\
  30 <= now - lastStateChangeTime (stateOf a ws).

(** [state] with [lastTxBlock] set to [b] and nothing else changed. *)
Definition withLastTxBlock (state : WalletState) (b : Z) : WalletState :=
  {| isSpamming := isSpamming state;
     lastTxBlock := b;
     lastNotifiedTxHash := lastNotifiedTxHash state;
     lastStateChangeTime := lastStateChangeTime state |}.

(** The object both transitions store. *)
Definition afterTransition (spamming : bool) (top : RecentTx) (now : Z)
    : WalletState :=
  {| isSpamming := spamming;
     lastTxBlock := block top;
     lastNotifiedTxHash := hash top;
     lastStateChangeTime := now |}.

(** The pattern of a burst that is going on: three transactions, both gaps
    between consecutive blocks at most 3, and the chain at most 3 blocks
    ahead of the first. *)
Definition burstPattern (transactions : list Transaction) (top : RecentTx)
    (currentBlock : Z) : Prop :=
  (3 <= length transactions)%nat /\
  (exists t1 t2,
      recentTxs transactions !! 1%nat = Some t1 /\
      recentTxs transactions !! 2%nat = Some t2 /\
      block top - block t1 <= 3 /\ block t1 - block t2 <= 3) /\
  currentBlock - block top <= 3.

(** A transaction as the API lists it, for the examples. *)
Definition sampleTx (h : string) (b : Z) : Transaction :=
  {| Tx.hash := h; Tx.from := "0x1111"; Tx.to := "0xabc"; Tx.value := "0";
     Tx.blockNumber := b; Tx.timeStamp := 1700000000; Tx.input := "0x" |}.

(** A reply to [eth_blockNumber] that makes the attempt fail: the request
    is rejected, or the result is missing. *)
Definition heightFails (reply : HeightReply) : Prop :=
  match reply with
  | HeightData (Some _) => False
  | _ => True
  end.

(** An upstream that rejects the first two requests and then lists two
    transactions, one to the address and one from it; it never tells the
    height of the chain. *)
Definition flakyOutside : Outside :=
  {| API_KEYS := ["key0"; "key1"; "key2"; "key3"; "key4"];
     txlist := fun n address =>
       if (n <? 2)%nat then TxRejected
       else TxData "1" (Some [ sampleTx "h102" 102;
                               {| Tx.hash := "h101"; Tx.from := "0xabc";
                                  Tx.to := "0x2222"; Tx.value := "0";
                                  Tx.blockNumber := 101;
                                  Tx.timeStamp := 1700000000;
                                  Tx.input := "0x" |} ]);
     eth_blockNumber := fun n =>
       if (n <? 2)%nat then HeightRejected else HeightData None;
     latency := fun _ => 20%N;
     late := fun _ => 1%N |}.

(** The module after some classification: two addresses with a known
    block, one without. *)
Definition seenWorld : World :=
  {| clock := 1700000000000; currentApiKeyIndex := Some O;
     lastApiCalls := Array_fill 5 0;
     walletStates :=
       {[ "0xabc" := {| isSpamming := true; lastTxBlock := 142;
                        lastNotifiedTxHash := "h142";
                        lastStateChangeTime := 1699999000 |};
          "0xdef" := {| isSpamming := false; lastTxBlock := 100;
                        lastNotifiedTxHash := "";
                        lastStateChangeTime := 0 |};
          "0x123" := freshState ]};
     requests := 0; timers := 0; trace := [] |}.

(** The cursor is at credential [i] of the pool, which is then not empty;
    true of the module as it is loaded with at least one credential, and
    kept by every acquisition. *)
Definition cursorAt (out : Outside) (w : World) (i : nat) : Prop :=
  currentApiKeyIndex w = Some i /\ (i < length (API_KEYS out))%nat.

(** The hashes on top of the windows of the calls for [a], in the order of
    the calls. *)
Definition topsFor (a : string) (calls : list Call) : list string :=
  callsFor a calls ≫= topHash.

(** For every address of the sequence, a hash that was replaced on top of
    the window does not come back: what the API gives when it lists the
    newest transactions of a chain that only grows. *)
Definition nonRecurringTops (calls : list Call) : bool :=
  forallb (fun c => non_recurring (topsFor (address c) calls)) calls.

(** No notification, as address, hash and kind of transition, is emitted
    twice by the calls. *)
Definition notifiedAtMostOnce (calls : list Call)
    (ws : gmap string WalletState) : Prop :=
  NoDup (monitor calls ws).2.

(** Three calls for one address.  The API lists a burst around block 100,
    then (from a node that lags) one old transaction, then the burst
    again. *)
Definition recurringCalls : list Call :=
  let burst := [sampleTx "h100" 100; sampleTx "h99" 99; sampleTx "h98" 98] in
  [ {| at_time := 100; txs := burst; address := "0xabc"; height := 101 |};
    {| at_time := 200; txs := [sampleTx "h80" 80]; address := "0xabc";
       height := 102 |};
    {| at_time := 300; txs := burst; address := "0xabc"; height := 103 |} ].

(** The same burst followed by newer transactions only. *)
Definition growingCalls : list Call :=
  let burst := [sampleTx "h100" 100; sampleTx "h99" 99; sampleTx "h98" 98] in
  [ {| at_time := 100; txs := burst; address := "0xabc"; height := 101 |};
    {| at_time := 101; txs := burst; address := "0xabc"; height := 102 |};
    {| at_time := 200; txs := sampleTx "h101" 101 :: burst;
       address := "0xabc"; height := 130 |};
    {| at_time := 300;
       txs := [sampleTx "h142" 142; sampleTx "h141" 141; sampleTx "h140" 140];
       address := "0xabc"; height := 143 |} ].

(** [seen] are hashes notified before: none of them comes back on top once
    it has been replaced there, and only the hash notified last can still be
    on top of the next window. *)
Definition settled (seen : list string) (state : WalletState)
    (tops : list string) : Prop :=
  forall h, h ∈ seen ->
    (h ∉ drop_while (String.eqb h) tops) /\
    (h <> lastNotifiedTxHash state -> h ∉ tops).

(** The reading under which a call that gets past the guards and notifies
    nothing always stores the block of the first transaction of the window,
    and changes nothing else. *)
Definition tracksTopBlock (now : Z) (transactions : list Transaction)
    (a : string) (currentBlock : Z) (ws : gmap string WalletState) : Prop :=
  forall top,
    passesGuards now transactions a ws top ->
    (isSpamActivity now transactions a currentBlock ws).2 = noChange ->
    (isSpamActivity now transactions a currentBlock ws).1
    = <[a := withLastTxBlock (stateOf a ws) (block top)]> ws.

(** A store with one bursting address. *)
Definition burstingAt (a : string) (b : Z) (h : string) (t : Z)
    : gmap string WalletState :=
  {[ a := {| isSpamming := true; lastTxBlock := b;
             lastNotifiedTxHash := h; lastStateChangeTime := t |} ]}.

(** * The rest of the program: the monitoring loop, the names of the
    wallets, the status command and the deployer monitor *)

(** ** The names of the wallets *)

(** [formatWalletName(address, description)]; the description is the empty
    string when the caller passes [undefined] (both are falsy). *)
Definition formatWalletName (address description : string) : string :=
  let shortAddress := String.substring 0 7 address in
  if String.eqb description ""
  then shortAddress
  else shortAddress +:+ " (" +:+ description +:+ ")".

(** The part of a string in front of its first ["("], and what follows that
    parenthesis when there is one. *)
Fixpoint splitAtParen (s : string) : string * option string :=
  match s with
  | EmptyString => (EmptyString, None)
  | String c s' =>
    if Ascii.eqb c "("%char
    then (EmptyString, Some s')
    else let '(p, rest) := splitAtParen s' in (String c p, rest)
  end.

(** [Some d] when the string is [d] followed by one [")"]. *)
Fixpoint beforeLastParen (s : string) : option string :=
  match s with
  | EmptyString => None
  | String c EmptyString => if Ascii.eqb c ")"%char then Some EmptyString else None
  | String c s' => String c <$> beforeLastParen s'
  end.

(** No character of the string is a line terminator: what [.] matches.
    The characters of the model are the 256 of [ascii]; the two other
    line terminators of JavaScript, U+2028 and U+2029, are not among
    them. *)
Fixpoint oneLine (s : string) : bool :=
  match s with
  | EmptyString => true
  | String c s' =>
    negb (Ascii.eqb c "010"%char) && negb (Ascii.eqb c "013"%char) && oneLine s'
  end.

(** The two patterns that read a name.  The one of
    [updateExistingWallets] is: start, one or more characters other than
    ["("], white space, ["("], a group of characters other than line
    terminators, [")"], end.  The one of the status command has a group
    around the first part and makes the rest, from the white space on,
    optional.  On a string with a parenthesis both match in one way only:
    the first part cannot go past the first ["("] and must reach it, white
    space included, for the parenthesis to match, and it needs one
    character; what follows must then be a text without line terminator and
    a last [")"].  [parenthesized] gives the first part and that text. *)
Definition parenthesized (s : string) : option (string * string) :=
  match splitAtParen s with
  | (p, Some rest) =>
    if String.eqb p "" then None
    else
      match beforeLastParen rest with
      | Some d => if oneLine d then Some (p, d) else None
      | None => None
      end
  | (_, None) => None
  end.

(** [description] in [updateExistingWallets]: the group of the match, and
    [''] without a match. *)
Definition descriptionOf (fullName : string) : string :=
  match parenthesized fullName with
  | Some (_, d) => d
  | None => ""
  end.

(** What [updateExistingWallets] makes of the name of [address]. *)
Definition updatedName (address fullName : string) : string :=
  formatWalletName address (descriptionOf fullName).

(** [shortName] and [description] in [handleDiscordCommand]: the two
    groups of the match, or [fullName] and [''] without a match.  On a name
    without parenthesis the first group is the whole name (when it is not
    empty) and the second is [undefined], for which [''] stands here: both
    are falsy where the description is used. *)
Definition statusName (fullName : string) : string * string :=
  match splitAtParen fullName with
  | (_, None) => (fullName, "")
  | (_, Some _) =>
    match parenthesized fullName with
    | Some (p, d) => (p, d)
    | None => (fullName, "")
    end
  end.

(** No ["("] in the string. *)
Fixpoint noParen (s : string) : bool :=
  match s with
  | EmptyString => true
  | String c s' => negb (Ascii.eqb c "("%char) && noParen s'
  end.

(** ** The registry of the wallets *)

(** [[a-fA-F0-9]] *)
Definition isHexDigit (c : ascii) : bool :=
  let n := nat_of_ascii c in
  ((48 <=? n) && (n <=? 57) || (65 <=? n) && (n <=? 70)
   || (97 <=? n) && (n <=? 102))%nat.

Fixpoint allHex (s : string) : bool :=
  match s with
  | EmptyString => true
  | String c s' => isHexDigit c && allHex s'
  end.

(** The test of [addNewWallet]: the address is ["0x"] and 40 hexadecimal
    digits, nothing before and nothing behind. *)
Definition matchesAddress (address : string) : bool :=
  match address with
  | String "0" (String "x" digits) =>
    (String.length digits =? 40)%nat && allHex digits
  | _ => false
  end.

(** [NORMALIZED_WALLETS] as [loadWallets] and the reduction over
    [Object.entries(NAMED_WALLETS)] build it: every entry is written under
    the lower case of its address, a later entry over an earlier one. *)
Definition normalizeWallets (entries : list (string * string))
    : gmap string string :=
  foldl (fun acc entry => <[toLowerCase entry.1 := entry.2]> acc) ∅ entries.

(** The two records of names and the record [lastProcessedTx], which holds
    the block number [addNewWallet] stores for a new address. *)
Record Registry := mkRegistry {
  NAMED_WALLETS : gmap string string;
  NORMALIZED_WALLETS : gmap string string;
  lastProcessedTx : gmap string Z
}.

(** [if (record[key])]: the key is there with a name that is not empty. *)
Definition truthyAt (record : gmap string string) (key : string) : bool :=
  match record !! key with
  | Some name => negb (String.eqb name "")
  | None => false
  end.

(** The callback [addNewWallet] gives to [rl.question], run with the
    description that was typed. *)
Definition describeNewWallet (out : Outside) (address description : string)
    (reg : Registry) : M Registry :=
  let fullName := formatWalletName address description in
  let named := <[address := fullName]> (NAMED_WALLETS reg) in
  let normalized := <[toLowerCase address := fullName]> (NORMALIZED_WALLETS reg) in
  try_catch
    (transactions ← fetchTransactions out address 0;
     mret {| NAMED_WALLETS := named; NORMALIZED_WALLETS := normalized;
             lastProcessedTx :=
               match transactions with
               | tx :: _ => <[address := Tx.blockNumber tx]> (lastProcessedTx reg)
               | [] => lastProcessedTx reg
               end |})
    (fun error =>
       console_error;;
       mret {| NAMED_WALLETS := named; NORMALIZED_WALLETS := normalized;
               lastProcessedTx := lastProcessedTx reg |}).

(** [addNewWallet(address)], with the description the question will be
    answered with. *)
Definition addNewWallet (out : Outside) (address description : string)
    (reg : Registry) : M Registry :=
  if negb (matchesAddress address) then mret reg
  else if truthyAt (NORMALIZED_WALLETS reg) (toLowerCase address) then mret reg
  else describeNewWallet out address description reg.

(** Every wallet of the file has a name and is found under the lower case
    of its address. *)
Definition findable (reg : Registry) : Prop :=
  forall a name, NAMED_WALLETS reg !! a = Some name ->
    name <> "" /\ NORMALIZED_WALLETS reg !! toLowerCase a = Some name.

(** [updateExistingWallets()] on the records; [entries] is
    [Object.entries(NAMED_WALLETS)], in the order the engine lists the
    keys.  The file that [saveWallets] writes is not part of the model. *)
Definition updateExistingWallets (entries : list (string * string))
    (reg : Registry) : Registry :=
  let updatedWallets :=
    (fun entry => (entry.1, updatedName entry.1 entry.2)) <$> entries in
  {| NAMED_WALLETS :=
       foldl (fun acc entry => <[entry.1 := entry.2]> acc)
             (NAMED_WALLETS reg) updatedWallets;
     NORMALIZED_WALLETS :=
       foldl (fun acc entry => <[toLowerCase entry.1 := entry.2]> acc)
             (NORMALIZED_WALLETS reg) updatedWallets;
     lastProcessedTx := lastProcessedTx reg |}.

(** ** The loop of [monitorWalletBatch] *)

(** [sendDiscordNotification(latestTx, message)] as the loop calls it: the
    transaction shown and the transition the message names (["Spam Activity
    Started"] or ["Spam Activity Stopped"]). *)
Record Alert := mkAlert {
  alert_tx : Transaction;
  alert_type : Transition
}.

(** What the loop of [monitorWalletBatch] is given for [addresses[i]]:
    the address, [results[i]], and the reading of the clock (in seconds)
    when its turn comes. *)
Record Fetched := mkFetched {
  f_address : string;
  f_transactions : list Transaction;
  f_now : Z
}.

(** The body of the loop: [continue] on an empty result, else the
    classification and, for a verdict with flag and type, the notification
    with [transactions[0]]. *)
Definition classifyFetched (currentBlock : Z) (f : Fetched)
    (ws : gmap string WalletState) : gmap string WalletState * list Alert :=
  match f_transactions f with
  | [] => (ws, [])
  | latestTx :: _ =>
    let '(ws', v) :=
      isSpamActivity (f_now f) (f_transactions f) (f_address f) currentBlock ws in
    (ws',
     match type v with
     | Some t =>
       if shouldNotify v then [ {| alert_tx := latestTx; alert_type := t |} ]
       else []
     | None => []
     end)
  end.

Fixpoint classifyAll (currentBlock : Z) (batch : list Fetched)
    (ws : gmap string WalletState) : gmap string WalletState * list Alert :=
  match batch with
  | [] => (ws, [])
  | f :: batch' =>
    let '(ws1, alerts) := classifyFetched currentBlock f ws in
    let '(ws2, more) := classifyAll currentBlock batch' ws1 in
    (ws2, alerts ++ more)
  end.

(** [monitorWalletBatch(addresses)] from the two awaited results on:
    [currentBlock] is what [getCurrentBlockNumber] returned and [batch] what
    the fetches returned; a height of 0 ends the tick. *)
Definition monitorWalletBatch (currentBlock : Z) (batch : list Fetched)
    (ws : gmap string WalletState) : gmap string WalletState * list Alert :=
  if currentBlock =? 0 then (ws, []) else classifyAll currentBlock batch ws.

(** The ticks of the monitoring loop, one after the other. *)
Fixpoint monitoring (ticks : list (Z * list Fetched))
    (ws : gmap string WalletState) : gmap string WalletState * list Alert :=
  match ticks with
  | [] => (ws, [])
  | (currentBlock, batch) :: ticks' =>
    let '(ws1, alerts) := monitorWalletBatch currentBlock batch ws in
    let '(ws2, more) := monitoring ticks' ws1 in
    (ws2, alerts ++ more)
  end.

(** The classification calls a tick makes: one for each result that is not
    empty. *)
Definition callsOfBatch (currentBlock : Z) (batch : list Fetched) : list Call :=
  if currentBlock =? 0 then []
  else
    (fun f => {| at_time := f_now f; txs := f_transactions f;
                 address := f_address f; height := currentBlock |})
    <$> filter (fun f => f_transactions f <> []) batch.

Definition callsOfTicks (ticks : list (Z * list Fetched)) : list Call :=
  ticks ≫= (fun t => callsOfBatch t.1 t.2).

(** [NORMALIZED_WALLETS[transaction.to.toLowerCase()] || 'Unknown Contract'] *)
Definition contractName (normalized : gmap string string)
    (transaction : Transaction) : string :=
  match normalized !! toLowerCase (Tx.to transaction) with
  | Some name => if String.eqb name "" then "Unknown Contract" else name
  | None => "Unknown Contract"
  end.
(** The alert [al] is the one sent for the notification [n] of the
    classifier: same transition, for a result of [fs] whose first
    transaction the alert shows. *)
Definition sentFor (fs : list Fetched) (al : Alert) (n : Notification) : Prop :=
  alert_type al = n_type n /\
  exists f, f ∈ fs /\
    head (f_transactions f) = Some (alert_tx al) /\
    n_address n = f_address f /\
    hash <$> head (recentTxs (f_transactions f)) = Some (n_hash n).

(** Every transaction of a result was sent to the address of the result,
    which is written in lower case: what [fetchTransactions] returns for a
    key of [NORMALIZED_WALLETS]. *)
Definition addressedTo (fs : list Fetched) : Prop :=
  forall f tx, f ∈ fs -> tx ∈ f_transactions f ->
    toLowerCase (Tx.to tx) = f_address f.

(** The alerts that show the contract [a]. *)
Definition alertsFor (a : string) (alerts : list Alert) : list Alert :=
  filter (fun al => toLowerCase (Tx.to (alert_tx al)) = a) alerts.

(** The state both transitions leave, read off the alert that is sent. *)
Definition recordedBy (al : Alert) (now : Z) : WalletState :=
  {| isSpamming := bool_decide (alert_type al = start);
     lastTxBlock := Tx.blockNumber (alert_tx al);
     lastNotifiedTxHash := Tx.hash (alert_tx al);
     lastStateChangeTime := now |}.

(** ** [splitIntoChunks] of the status command *)

Section Chunks.

(** The strings of this section are sequences of code units of any kind;
    [newline] is the code unit of ["\n"], and [length] is [.length]. *)
Context {char : Type}.
Variable newline : char.

(** [items.join('\n\n')] *)
Definition join (items : list (list char)) : list char :=
  match items with
  | [] => []
  | item :: items' =>
    item ++ concat ((fun s => newline :: newline :: s) <$> items')
  end.

(** The three variables of [splitIntoChunks]. *)
Record Chunker := mkChunker {
  chunks : list (list char);
  currentChunk : list (list char);
  currentLength : nat
}.

(** The callback of [arr.forEach]. *)
Definition addItem (maxLength : nat) (st : Chunker) (item : list char)
    : Chunker :=
  if (maxLength <? currentLength st + length item)%nat then
    {| chunks := chunks st ++ [join (currentChunk st)];
       currentChunk := [item];
       currentLength := length item |}
  else
    {| chunks := chunks st;
       currentChunk := currentChunk st ++ [item];
       currentLength := (currentLength st + length item + 2)%nat |}.

(** [splitIntoChunks(arr, maxLength)] *)
Definition splitIntoChunks (arr : list (list char)) (maxLength : nat)
    : list (list char) :=
  let st := foldl (addItem maxLength)
              {| chunks := []; currentChunk := []; currentLength := 0 |} arr in
  if (0 <? length (currentChunk st))%nat
  then chunks st ++ [join (currentChunk st)]
  else chunks st.

(** The items of the chunks before they are joined: the state of
    [splitIntoChunks] with the chunks kept as arrays. *)
Definition addItemTo (maxLength : nat)
    (st : list (list (list char)) * list (list char) * nat) (item : list char)
    : list (list (list char)) * list (list char) * nat :=
  let '(groups, current, len) := st in
  if (maxLength <? len + length item)%nat
  then (groups ++ [current], [item], length item)
  else (groups, current ++ [item], (len + length item + 2)%nat).

Definition chunkItems (arr : list (list char)) (maxLength : nat)
    : list (list (list char)) :=
  let '(groups, current, _) := foldl (addItemTo maxLength) ([], [], O) arr in
  if (0 <? length current)%nat then groups ++ [current] else groups.

(** What [splitIntoChunks] keeps true of its state with arrays, after the
    items [seen]: nothing is lost, [currentLength] is the length of the
    joined current chunk or 2 more, a chunk of two items or more is at most
    [maxLength + 2] long, and a chunk is empty only when the first item of
    all is longer than [maxLength]. *)
Definition chunking (maxLength : nat) (seen : list (list char))
    (st : list (list (list char)) * list (list char) * nat) : Prop :=
  let '(groups, current, len) := st in
  concat groups ++ current = seen /\
  (seen <> [] -> current <> []) /\
  (current = [] -> len = O) /\
  (current <> [] ->
   (length (join current) <= len <= length (join current) + 2)%nat) /\
  ((2 <= length current)%nat -> (length (join current) <= maxLength + 2)%nat) /\
  (forall g, g ∈ groups ->
     (length g <= 1)%nat \/ (length (join g) <= maxLength + 2)%nat) /\
  (forall g, g ∈ groups -> g = [] ->
     exists item rest, seen = item :: rest /\ (maxLength < length item)%nat) /\
  ((exists item rest, seen = item :: rest /\ (maxLength < length item)%nat) ->
   [] ∈ groups).

End Chunks.

(** ** The status command *)

(** [state?.isSpamming] for [state = walletStates[address.toLowerCase()]]
    in [handleDiscordCommand]: the wallet is listed as active. *)
Definition listedActive (ws : gmap string WalletState) (address : string)
    : bool :=
  match ws !! toLowerCase address with
  | Some state => isSpamming state
  | None => false
  end.

(** Whether the last of the transitions is a start; [before] when there is
    none. *)
Definition endsStarted (before : bool) (kinds : list Transition) : bool :=
  match last kinds with
  | Some start => true
  | Some stop => false
  | None => before
  end.

(** ** The monitor of the deployer wallets ([deployerWallet.ts]) *)

Module Deployer.

(** [fetchTransactions(address)]: one request, with the environment
    variable as it is for the key; the result as it comes when the status
    is ['1'], the empty array otherwise and on an error. *)
Definition fetchTransactions (out : Outside) (apikey : option string)
    (address : string) : M (list Transaction) :=
  try_catch
    (response ← axios_get_txlist out address apikey;
     match response.2 with
     | Some result =>
       if String.eqb response.1 "1" then mret result else mret []
     | None => mret []
     end)
    (fun error => console_error;; mret []).

(** [!lastProcessedTx[address] || lastProcessedTx[address] !== latestTx.hash];
    a hash that is stored but empty is falsy. *)
Definition unseen (lastProcessedTx : gmap string string) (address : string)
    (latestTx : Transaction) : bool :=
  match lastProcessedTx !! address with
  | None => true
  | Some h => String.eqb h "" || negb (String.eqb h (Tx.hash latestTx))
  end.

(** The body of the loop of [monitorWallets] for what the fetch returned:
    the record afterwards, and the alert that was sent, as the address
    (which stands for [DEPLOYER_WALLETS[address]]) and the transaction. *)
Definition check (address : string) (transactions : list Transaction)
    (lastProcessedTx : gmap string string)
    : gmap string string * list (string * Transaction) :=
  match transactions with
  | latestTx :: _ =>
    if unseen lastProcessedTx address latestTx
    then (<[address := Tx.hash latestTx]> lastProcessedTx,
          [(address, latestTx)])
    else (lastProcessedTx, [])
  | [] => (lastProcessedTx, [])
  end.


(** The loop bodies for a sequence of fetched results, over any number of
    passes. *)
Fixpoint watch (observed : list (string * list Transaction))
    (lastProcessedTx : gmap string string)
    : gmap string string * list (string * Transaction) :=
  match observed with
  | [] => (lastProcessedTx, [])
  | (address, transactions) :: observed' =>
    let '(lp1, alerts) := check address transactions lastProcessedTx in
    let '(lp2, more) := watch observed' lp1 in
    (lp2, alerts ++ more)
  end.



(** The hashes of the alerts for [a]. *)
Definition alertedHashes (a : string) (alerts : list (string * Transaction))
    : list string :=
  (fun x => Tx.hash x.2) <$> filter (fun x => x.1 = a) alerts.

(** No hash of the list repeats the one before it, [prev] for the first. *)
Fixpoint noRepeat (prev : option string) (hashes : list string) : Prop :=
  match hashes with
  | [] => True
  | h :: hashes' => prev <> Some h /\ noRepeat (Some h) hashes'
  end.

(** The hash of the first transaction of the last result for [a] that was
    not empty. *)
Fixpoint lastSeen (a : string) (observed : list (string * list Transaction))
    : option string :=
  match observed with
  | [] => None
  | (address, transactions) :: observed' =>
    match lastSeen a observed' with
    | Some h => Some h
    | None => if decide (address = a) then Tx.hash <$> head transactions else None
    end
  end.

End Deployer.

(** ** Data of the examples for the other functions *)

Definition burst102 : list Transaction :=
  [sampleTx "h102" 102; sampleTx "h101" 101; sampleTx "h100" 100].

(** A tick at height 103 for two addresses, the second without result; a
    tick that is skipped; a tick at height 130 with nothing new. *)
Definition sampleBatch : list Fetched :=
  [ {| f_address := "0xabc"; f_transactions := burst102; f_now := 1700000050 |};
    {| f_address := "0xdef"; f_transactions := []; f_now := 1700000051 |} ].

Definition sampleTicks : list (Z * list Fetched) :=
  [ (103, sampleBatch);
    (0, sampleBatch);
    (130, [ {| f_address := "0xabc";
               f_transactions := sampleTx "h103" 103 :: burst102;
               f_now := 1700000200 |} ]) ].

(** An address in the form [addNewWallet] asks for, and the same in lower
    case. *)
Definition sampleAddress : string :=
  "0x75Fc48B5354CDda1B9717615bf311bF48F2CD733".
Definition sampleAddressLower : string :=
  "0x75fc48b5354cdda1b9717615bf311bf48f2cd733".

Definition emptyRegistry : Registry :=
  {| NAMED_WALLETS := ∅; NORMALIZED_WALLETS := ∅; lastProcessedTx := ∅ |}.

(** An upstream that gives the height 0x1800000 at the third request. *)
Definition slowHeight : Outside :=
  {| API_KEYS := ["key0"; "key1"];
     txlist := fun _ _ => TxRejected;
     eth_blockNumber := fun n =>
       match n with
       | O => HeightRejected
       | 1%nat => HeightData None
       | _ => HeightData (Some 25165824)
       end;
     latency := fun _ => 0%N;
     late := fun _ => 0%N |}.

(** What is seen of a deployer wallet over four passes. *)
Definition deployerPasses : list (string * list Transaction) :=
  [ ("0xdep", [sampleTx "h1" 10]);
    ("0xdep", [sampleTx "h1" 10]);
    ("0xdep", []);
    ("0xdep", [sampleTx "h2" 11; sampleTx "h1" 10]) ].
(** The names of two wallets as the file gives them. *)
Definition sampleEntries : list (string * string) :=
  [ (sampleAddress, "0x75Fc4 (router)"); ("0xABC", "Pool") ].

(** Three status entries of 11, 1 and 9 characters. *)
Definition sampleItems : list (list ascii) :=
  String.list_ascii_of_string
  <$> ["aaaaaaaaaaa"%string; "b"%string; "ccccccccc"%string].

(** One classification of a burst at height 103. *)
Definition burstCall : Call :=
  {| at_time := 1700000050; txs := burst102; address := "0xabc";
     height := 103 |}.

(** A registry whose names are in an older form and whose normalized
    record is stale. *)
Definition staleRegistry : Registry :=
  {| NAMED_WALLETS := list_to_map [ (sampleAddress, "Router (v1)"); ("0xABC", "Pool") ];
     NORMALIZED_WALLETS := {[ "0xabc" := "Old pool" ]};
     lastProcessedTx := ∅ |}.

(** * Properties *)

(** ** The sorted window *)

Lemma insert_desc_perm a l : insert_desc a l ≡ₚ a :: l.
Proof.
  induction l as [|b l IH]; simpl; [done|].
  destruct (block b <=? block a); [done|].
  rewrite IH. apply Permutation_swap.
Qed.

Lemma sort_desc_perm l : sort_desc l ≡ₚ l.
Proof.
  induction l as [|a l IH]; simpl; [done|].
  rewrite insert_desc_perm. by rewrite IH.
Qed.

Lemma insert_desc_sorted a l :
  Sorted descending l -> Sorted descending (insert_desc a l).
Proof.
  induction 1 as [|b l Hl IH Hb]; simpl.
  - repeat constructor.
  - destruct (Z.leb_spec (block b) (block a)) as [Hle|Hlt].
    + constructor; [by constructor|]. by constructor.
    + constructor; [done|].
      destruct l as [|c l]; simpl in *.
      * constructor. unfold descending. lia.
      * destruct (block c <=? block a).
        -- constructor. unfold descending. lia.
        -- constructor. by inversion Hb.
Qed.

Lemma sort_desc_sorted l : Sorted descending (sort_desc l).
Proof.
  induction l as [|a l IH]; simpl; [constructor|].
  by apply insert_desc_sorted.
Qed.

(** The sort is stable: an array that is in order already is left as it
    is, equal blocks included. *)
Lemma sort_desc_sorted_id l : Sorted descending l -> sort_desc l = l.
Proof.
  induction 1 as [|a l Hl IH Ha]; simpl; [done|].
  rewrite IH. destruct Ha as [|b l Hab]; simpl; [done|].
  unfold descending in Hab.
  destruct (Z.leb_spec (block b) (block a)); [done|lia].
Qed.

Lemma newestFirst_take n transactions :
  newestFirst transactions -> newestFirst (take n transactions).
Proof.
  unfold newestFirst. intros H. revert n.
  induction H as [|a l Hl IH Ha]; intros [|n]; simpl; try constructor.
  - apply IH.
  - destruct Ha as [|b l Hab]; destruct n; simpl; by constructor.
Qed.

Lemma newestFirst_summarize transactions :
  newestFirst transactions -> Sorted descending (summarize <$> transactions).
Proof.
  induction 1 as [|a l Hl IH Ha]; simpl; constructor; [done|].
  destruct Ha; simpl; by constructor.
Qed.

(** On transactions that come newest first the window is the first three
    of them, in their order: [recentTxs[i]] is [transactions[i]]. *)
Lemma recentTxs_newestFirst transactions :
  newestFirst transactions ->
  recentTxs transactions = summarize <$> take 3 transactions.
Proof.
  intros H. unfold recentTxs. apply sort_desc_sorted_id.
  by apply newestFirst_summarize, newestFirst_take.
Qed.

Lemma recentTxs_length transactions :
  length (recentTxs transactions) = Nat.min 3 (length transactions).
Proof.
  unfold recentTxs. rewrite (Permutation_length (sort_desc_perm _)).
  by rewrite length_fmap, length_take.
Qed.

(** ** One call on the store *)

Lemma stateOf_insert_eq a s (ws : gmap string WalletState) :
  stateOf a (<[a := s]> ws) = s.
Proof. unfold stateOf. by rewrite lookup_insert_eq. Qed.

Lemma stateOf_insert_ne a b s (ws : gmap string WalletState) :
  a <> b -> stateOf b (<[a := s]> ws) = stateOf b ws.
Proof. intros. unfold stateOf. by rewrite lookup_insert_ne. Qed.

(** The call rewrites the entry of its address with what [classify] makes
    of the object found there, or of the fresh object. *)
Lemma isSpamActivity_classify now transactions a currentBlock
    (ws : gmap string WalletState) :
  isSpamActivity now transactions a currentBlock ws =
  (<[a := (classify now (recentTxs transactions) currentBlock (stateOf a ws)).1]> ws,
   (classify now (recentTxs transactions) currentBlock (stateOf a ws)).2).
Proof.
  unfold isSpamActivity, stateOf. destruct (ws !! a) as [s|] eqn:Hs; simpl.
  - rewrite Hs. simpl. by destruct (classify _ _ _ _).
  - rewrite lookup_insert_eq. simpl. destruct (classify _ _ _ _). simpl.
    by rewrite insert_insert_eq.
Qed.

Lemma classify_verdicts now recent currentBlock state :
  let v := (classify now recent currentBlock state).2 in
  v = noChange \/ v = notify start \/ v = notify stop.
Proof.
  unfold classify. destruct recent as [|t0 [|t1 [|t2 r]]]; simpl; auto;
    repeat (match goal with |- context [if ?b then _ else _] => destruct b end;
            simpl; auto).
Qed.

Lemma classify_guarded now recent currentBlock state top :
  head recent = Some top ->
  hash top <> lastNotifiedTxHash state ->
  30 <= now - lastStateChangeTime state ->
  classify now recent currentBlock state =
  if isSpamming state then
    if 20 <? currentBlock - block top
    then (afterTransition false top now, notify stop)
    else (state, noChange)
  else
    match recent with
    | t0 :: t1 :: t2 :: _ =>
      if (block t0 - block t1 <=? 3) && (block t1 - block t2 <=? 3)
         && (currentBlock - block top <=? 3)
      then (afterTransition true top now, notify start)
      else (withLastTxBlock state (block top), noChange)
    | _ => (withLastTxBlock state (block top), noChange)
    end.
Proof.
  intros Htop Hhash Hold. destruct recent as [|t0 recent]; [done|].
  simpl in Htop. injection Htop as ->. unfold classify.
  destruct (String.eqb_spec (hash top) (lastNotifiedTxHash state)); [done|].
  destruct (Z.ltb_spec (now - lastStateChangeTime state) 30); [lia|].
  destruct (isSpamming state) eqn:Hspam; [done|].
  unfold withLastTxBlock, afterTransition. rewrite Hspam.
  destruct recent as [|t1 [|t2 recent]]; try done.
  cbn [forallb]. by rewrite andb_true_r.
Qed.

(** C10: whatever the transactions, the address, the chain height and the
    stored state, the verdict of [isSpamActivity] has [shouldNotify] true
    exactly when its [type] is not [null], that is when it is ['start'] or
    ['stop']: never a flag without a type, never a type without the flag. *)
Theorem shouldNotify_iff_type now transactions a currentBlock
    (ws : gmap string WalletState) :
  let v := (isSpamActivity now transactions a currentBlock ws).2 in
  (shouldNotify v = true <-> type v <> None) /\
  (shouldNotify v = true <-> type v = Some start \/ type v = Some stop).
Proof.
  rewrite isSpamActivity_classify. simpl.
  destruct (classify_verdicts now (recentTxs transactions) currentBlock
              (stateOf a ws)) as [H|[H|H]];
    rewrite H; simpl; split; split; try done; intuition congruence.
Qed.

(** C5: when less than 30 seconds have passed since the last change of
    state of the address, the call returns no notification and leaves the
    state of every address as it was (the store only gains the entry of the
    address, unchanged or fresh), whatever the transactions and the chain
    height are. *)
Theorem hysteresis_holds now transactions a currentBlock
    (ws : gmap string WalletState) :
  now - lastStateChangeTime (stateOf a ws) < 30 ->
  isSpamActivity now transactions a currentBlock ws
    = (<[a := stateOf a ws]> ws, noChange) /\
  forall b, stateOf b (isSpamActivity now transactions a currentBlock ws).1
            = stateOf b ws.
Proof.
  intros Hrecent.
  assert (classify now (recentTxs transactions) currentBlock (stateOf a ws)
          = (stateOf a ws, noChange)) as Hc.
  { unfold classify. destruct (recentTxs transactions) as [|top r]; [done|].
    destruct (String.eqb _ _); [done|].
    destruct (Z.ltb_spec (now - lastStateChangeTime (stateOf a ws)) 30);
      [done|lia]. }
  rewrite isSpamActivity_classify, Hc. simpl. split; [done|].
  intros b. destruct (decide (a = b)) as [->|Hne].
  - by rewrite stateOf_insert_eq.
  - by rewrite stateOf_insert_ne.
Qed.

(** A bursting address whose stop condition holds (the chain is 23 blocks
    ahead) but whose state changed 10 seconds ago. *)
Lemma hysteresis_holds_witness :
  let ws : gmap string WalletState :=
    {[ "0xabc" := {| isSpamming := true; lastTxBlock := 102;
                     lastNotifiedTxHash := "h102";
                     lastStateChangeTime := 990 |} ]} in
  1000 - lastStateChangeTime (stateOf "0xabc" ws) < 30 /\
  (isSpamActivity 1000 [sampleTx "h103" 103] "0xabc" 126 ws
     = (<[ "0xabc" := stateOf "0xabc" ws ]> ws, noChange) /\
   forall b,
     stateOf b (isSpamActivity 1000 [sampleTx "h103" 103] "0xabc" 126 ws).1
     = stateOf b ws).
Proof.
  intros ws. split; [by vm_compute|].
  apply (hysteresis_holds 1000 [sampleTx "h103" 103] "0xabc" 126 ws).
  by vm_compute.
Defined.

(** On the window: for an idle address past the guards the verdict is the
    start notification exactly on the pattern of a burst, the call then
    stores the transition, and otherwise nothing is notified. *)
Lemma idle_window_decision now transactions a currentBlock
    (ws : gmap string WalletState) top :
  isSpamming (stateOf a ws) = false ->
  passesGuards now transactions a ws top ->
  let r := isSpamActivity now transactions a currentBlock ws in
  (r.2 = notify start <-> burstPattern transactions top currentBlock) /\
  (r.2 = notify start -> r.1 !! a = Some (afterTransition true top now)) /\
  (r.2 <> notify start -> r.2 = noChange).
Proof.
  intros Hidle (Htop & Hhash & Hold) r. subst r.
  rewrite isSpamActivity_classify. simpl.
  rewrite (classify_guarded _ _ _ _ top Htop Hhash Hold), Hidle.
  pose proof (recentTxs_length transactions) as Hlen.
  unfold burstPattern.
  destruct (recentTxs transactions) as [|t0 [|t1 [|t2 r]]] eqn:Hw;
    simpl in Htop; cbn [length] in Hlen; try done; injection Htop as ->.
  - simpl. repeat split; try done. intros (? & _). lia.
  - simpl. repeat split; try done. intros (? & _). lia.
  - destruct ((block top - block t1 <=? 3) && (block t1 - block t2 <=? 3)
              && (currentBlock - block top <=? 3)) eqn:Hb; simpl.
    + apply andb_true_iff in Hb as [Hb Hb3].
      apply andb_true_iff in Hb as [Hb1 Hb2].
      apply Z.leb_le in Hb1, Hb2, Hb3.
      split; [split; [intros _|done]|split; [intros _|done]].
      * split; [lia|]. split; [|done]. by exists t1, t2.
      * by rewrite lookup_insert_eq.
    + split; [split; [done|]|done].
      intros (_ & (u1 & u2 & [= <-] & [= <-] & Hg1 & Hg2) & Hg3).
      apply Z.leb_le in Hg1, Hg2, Hg3. by rewrite Hg1, Hg2, Hg3 in Hb.
Qed.

(** C1: on a call for an idle address that gets past the guards (a
    transaction is there, the hash of the first transaction of the window is
    not the one notified last, the last change of state is at least 30
    seconds old) the verdict is the start notification if and only if there
    are at least 3 transactions, both gaps between consecutive blocks are
    at most 3 and the chain is at most 3 blocks ahead of the first; the
    call then stores [isSpamming = true], [lastNotifiedTxHash = top.hash],
    [lastTxBlock = top.block] and [lastStateChangeTime = now]; otherwise it
    notifies nothing.

    On transactions that come newest first (what the fetcher asks the API
    for) this is said of the transactions themselves: [tx0], [tx1] and
    [tx2] are [transactions[0]], [transactions[1]] and [transactions[2]],
    the gaps are the differences of their [blockNumber], and what is stored
    is the [blockNumber] and the [hash] of [tx0].

    In any order, the same is said of the window the code builds, which is
    the first three transactions, each with its [blockNumber], [timeStamp]
    and [hash], arranged by decreasing block. *)
Theorem idle_to_bursting_iff now transactions a currentBlock
    (ws : gmap string WalletState) top :
  isSpamming (stateOf a ws) = false ->
  passesGuards now transactions a ws top ->
  let r := isSpamActivity now transactions a currentBlock ws in
  let entry (tx : Transaction) :=
    {| block := Tx.blockNumber tx; timestamp := Tx.timeStamp tx;
       hash := Tx.hash tx |} in
  (newestFirst transactions ->
   exists tx0,
     transactions !! 0%nat = Some tx0 /\ top = entry tx0 /\
     (r.2 = notify start <->
      exists tx1 tx2,
        transactions !! 1%nat = Some tx1 /\
        transactions !! 2%nat = Some tx2 /\
        Tx.blockNumber tx0 - Tx.blockNumber tx1 <= 3 /\
        Tx.blockNumber tx1 - Tx.blockNumber tx2 <= 3 /\
        currentBlock - Tx.blockNumber tx0 <= 3) /\
     (r.2 = notify start ->
      r.1 !! a = Some {| isSpamming := true;
                         lastTxBlock := Tx.blockNumber tx0;
                         lastNotifiedTxHash := Tx.hash tx0;
                         lastStateChangeTime := now |})) /\
  recentTxs transactions ≡ₚ entry <$> take 3 transactions /\
  Sorted (fun x y => block y <= block x) (recentTxs transactions) /\
  (r.2 = notify start <-> burstPattern transactions top currentBlock) /\
  (r.2 = notify start ->
   r.1 !! a = Some {| isSpamming := true; lastTxBlock := block top;
                      lastNotifiedTxHash := hash top;
                      lastStateChangeTime := now |}) /\
  (r.2 <> notify start -> r.2 = noChange).
Proof.
  intros Hidle Hguards r entry.
  destruct (idle_window_decision now transactions a currentBlock ws top
              Hidle Hguards) as (Hiff & Hstored & Hquiet).
  fold r in Hiff, Hstored, Hquiet.
  split; [|split; [apply sort_desc_perm|split; [apply sort_desc_sorted|done]]].
  intros Hnew. destruct Hguards as (Htop & _).
  pose proof (recentTxs_newestFirst transactions Hnew) as Hw.
  change summarize with entry in Hw. rewrite Hw in Htop.
  destruct transactions as [|tx0 transactions]; [done|].
  injection Htop as <-. exists tx0.
  split; [done|]. split; [done|]. split; [|done].
  rewrite Hiff. unfold burstPattern. rewrite Hw.
  destruct transactions as [|tx1 [|tx2 rest]]; simpl.
  - split; [intros (? & _); lia|by intros (? & ? & ? & _)].
  - split; [intros (? & _); lia|by intros (? & ? & _ & ? & _)].
  - split.
    + intros (_ & (t1 & t2 & [= <-] & [= <-] & ? & ?) & ?).
      by exists tx1, tx2.
    + intros (u1 & u2 & [= <-] & [= <-] & ? & ? & ?).
      split; [lia|]. split; [|done]. by exists (entry tx1), (entry tx2).
Qed.

(** The example of the specification: blocks 102, 101 and 100 seen at
    height 103 for an address that was never classified.  The verdict is
    the start notification, and the block and the hash that are stored are
    those of the first transaction. *)
Lemma idle_to_bursting_iff_witness :
  let transactions := [sampleTx "h102" 102; sampleTx "h101" 101;
                       sampleTx "h100" 100] in
  let top := {| block := 102; timestamp := 1700000000; hash := "h102" |} in
  let r := isSpamActivity 1700000050 transactions "0xabc" 103 ∅ in
  let entry (tx : Transaction) :=
    {| block := Tx.blockNumber tx; timestamp := Tx.timeStamp tx;
       hash := Tx.hash tx |} in
  isSpamming (stateOf "0xabc" ∅) = false /\
  passesGuards 1700000050 transactions "0xabc" ∅ top /\
  newestFirst transactions /\
  r.2 = notify start /\
  r.1 !! "0xabc" = Some {| isSpamming := true; lastTxBlock := 102;
                           lastNotifiedTxHash := "h102";
                           lastStateChangeTime := 1700000050 |} /\
  ((newestFirst transactions ->
    exists tx0,
      transactions !! 0%nat = Some tx0 /\ top = entry tx0 /\
      (r.2 = notify start <->
       exists tx1 tx2,
         transactions !! 1%nat = Some tx1 /\
         transactions !! 2%nat = Some tx2 /\
         Tx.blockNumber tx0 - Tx.blockNumber tx1 <= 3 /\
         Tx.blockNumber tx1 - Tx.blockNumber tx2 <= 3 /\
         103 - Tx.blockNumber tx0 <= 3) /\
      (r.2 = notify start ->
       r.1 !! "0xabc" = Some {| isSpamming := true;
                                lastTxBlock := Tx.blockNumber tx0;
                                lastNotifiedTxHash := Tx.hash tx0;
                                lastStateChangeTime := 1700000050 |})) /\
   recentTxs transactions ≡ₚ entry <$> take 3 transactions /\
   Sorted (fun x y => block y <= block x) (recentTxs transactions) /\
   (r.2 = notify start <-> burstPattern transactions top 103) /\
   (r.2 = notify start ->
    r.1 !! "0xabc" = Some {| isSpamming := true; lastTxBlock := block top;
                             lastNotifiedTxHash := hash top;
                             lastStateChangeTime := 1700000050 |}) /\
   (r.2 <> notify start -> r.2 = noChange)).
Proof.
  intros transactions top r entry.
  assert (passesGuards 1700000050 transactions "0xabc" ∅ top) as Hg.
  { repeat split; by vm_compute. }
  assert (newestFirst transactions) as Hnew.
  { unfold newestFirst, transactions. repeat constructor; simpl; lia. }
  split; [done|]. split; [done|]. split; [done|].
  split; [by vm_compute|]. split; [by vm_compute|].
  by apply (idle_to_bursting_iff 1700000050 transactions "0xabc" 103 ∅ top).
Defined.

(** While the address is bursting and the chain is no more than 20 blocks
    ahead, the call returns before the assignment to [lastTxBlock]: block
    105 is on top, the stored block stays 100. *)
Lemma bursting_call_keeps_lastTxBlock :
  ~ tracksTopBlock 1000 [sampleTx "h105" 105] "0xabc" 110
      (burstingAt "0xabc" 100 "h100" 0).
Proof.
  intros H.
  specialize (H (summarize (sampleTx "h105" 105))).
  assert (lastTxBlock (stateOf "0xabc"
            (isSpamActivity 1000 [sampleTx "h105" 105] "0xabc" 110
               (burstingAt "0xabc" 100 "h100" 0)).1) = 105) as Hb.
  { rewrite H; [by vm_compute| |by vm_compute].
    repeat split; by vm_compute. }
  by vm_compute in Hb.
Qed.

(** C2 (amended): on a call that gets past the guards and notifies nothing,
    an idle address has [lastTxBlock] set to the block of the first
    transaction of the window and nothing else changed (its entry is
    created when the address was unknown); a bursting address, whose stop
    condition does not hold then, is left exactly as it was, [lastTxBlock]
    included. *)
Theorem no_transition_update now transactions a currentBlock
    (ws : gmap string WalletState) top :
  passesGuards now transactions a ws top ->
  (isSpamActivity now transactions a currentBlock ws).2 = noChange ->
  (isSpamActivity now transactions a currentBlock ws).1
  = if isSpamming (stateOf a ws) then ws
    else <[a := withLastTxBlock (stateOf a ws) (block top)]> ws.
Proof.
  intros (Htop & Hhash & Hold).
  rewrite isSpamActivity_classify. simpl.
  rewrite (classify_guarded _ _ _ _ top Htop Hhash Hold).
  destruct (isSpamming (stateOf a ws)) eqn:Hspam.
  - destruct (20 <? currentBlock - block top); simpl; [done|]. intros _.
    apply insert_id. unfold stateOf in *.
    by destruct (ws !! a).
  - destruct (recentTxs transactions) as [|t0 [|t1 [|t2 r]]]; simpl; try done.
    by destruct (_ && _).
Qed.

Lemma no_transition_update_witness :
  let transactions := [sampleTx "h105" 105; sampleTx "h90" 90] in
  let top := summarize (sampleTx "h105" 105) in
  passesGuards 1000 transactions "0xabc" ∅ top /\
  (isSpamActivity 1000 transactions "0xabc" 110 ∅).2 = noChange /\
  (isSpamActivity 1000 transactions "0xabc" 110 ∅).1
  = if isSpamming (stateOf "0xabc" ∅) then ∅
    else <["0xabc" := withLastTxBlock (stateOf "0xabc" ∅) (block top)]> ∅.
Proof.
  intros transactions top.
  assert (passesGuards 1000 transactions "0xabc" ∅ top) as Hg.
  { repeat split; by vm_compute. }
  assert ((isSpamActivity 1000 transactions "0xabc" 110 ∅).2 = noChange) as Hv.
  { by vm_compute. }
  split; [done|]. split; [done|].
  by apply (no_transition_update 1000 transactions "0xabc" 110 ∅ top).
Defined.

(** ** Sequences of calls *)

(** What one call can do to the object of its address. *)
Lemma classify_cases now recent currentBlock state :
  let r := classify now recent currentBlock state in
  (r.2 = noChange /\
   isSpamming r.1 = isSpamming state /\
   lastNotifiedTxHash r.1 = lastNotifiedTxHash state /\
   lastStateChangeTime r.1 = lastStateChangeTime state) \/
  (exists top,
      head recent = Some top /\
      hash top <> lastNotifiedTxHash state /\
      30 <= now - lastStateChangeTime state /\
      ((r.2 = notify start /\ isSpamming state = false /\
        r.1 = afterTransition true top now) \/
       (r.2 = notify stop /\ isSpamming state = true /\
        r.1 = afterTransition false top now))).
Proof.
  destruct recent as [|top recent]; [by left|].
  destruct (String.eqb_spec (hash top) (lastNotifiedTxHash state)) as [He|Hne].
  { left. unfold classify. simpl.
    by destruct (String.eqb_spec (hash top) (lastNotifiedTxHash state)). }
  destruct (Z.ltb_spec (now - lastStateChangeTime state) 30) as [Hlt|Hge].
  { left. unfold classify. simpl.
    destruct (String.eqb _ _); [done|].
    by destruct (Z.ltb_spec (now - lastStateChangeTime state) 30); [|lia]. }
  intros r. subst r.
  rewrite (classify_guarded now (top :: recent) currentBlock state top);
    [|done..].
  destruct (isSpamming state) eqn:Hspam.
  - destruct (20 <? currentBlock - block top); simpl.
    + right. exists top. repeat split; try done. by right.
    + by left.
  - destruct recent as [|t1 [|t2 recent]]; simpl;
      try (left; by rewrite ?Hspam).
    destruct (_ && _); simpl.
    + right. exists top. repeat split; try done. by left.
    + left. by rewrite ?Hspam.
Qed.

Lemma notificationOf_noChange c : notificationOf c noChange = [].
Proof. done. Qed.

Lemma notificationOf_notify c t top :
  head (recentTxs (txs c)) = Some top ->
  notificationOf c (notify t)
  = [ {| n_address := address c; n_hash := hash top; n_type := t |} ].
Proof.
  unfold notificationOf. simpl.
  destruct (recentTxs (txs c)); [done|]. by intros [= ->].
Qed.

Lemma notificationOf_address c v n :
  n ∈ notificationOf c v -> n_address n = address c.
Proof.
  unfold notificationOf. destruct (type v); [|by intros ?%elem_of_nil].
  destruct (recentTxs (txs c)); [by intros ?%elem_of_nil|].
  destruct (shouldNotify v); [|by intros ?%elem_of_nil].
  by intros ->%list_elem_of_singleton.
Qed.

Lemma monitor_app calls1 calls2 (ws : gmap string WalletState) :
  monitor (calls1 ++ calls2) ws
  = (let r1 := monitor calls1 ws in
     let r2 := monitor calls2 r1.1 in
     (r2.1, r1.2 ++ r2.2)).
Proof.
  revert ws. induction calls1 as [|c calls1 IH]; intros ws; simpl.
  - by destruct (monitor calls2 ws).
  - destruct (isSpamActivity _ _ _ _ _) as [ws1 v]. rewrite IH.
    destruct (monitor calls1 ws1) as [ws2 ns]. simpl.
    destruct (monitor calls2 ws2). simpl. by rewrite app_assoc.
Qed.

Lemma filter_all {A} (P : A -> Prop) `{!forall x, Decision (P x)} (l : list A) :
  (forall x, x ∈ l -> P x) -> filter P l = l.
Proof.
  induction l as [|x l IH]; intros Hall; [done|].
  rewrite filter_cons_True by (apply Hall; left).
  f_equal. apply IH. intros y Hy. apply Hall. by right.
Qed.

Lemma filter_none {A} (P : A -> Prop) `{!forall x, Decision (P x)} (l : list A) :
  (forall x, x ∈ l -> ~ P x) -> filter P l = [].
Proof.
  induction l as [|x l IH]; intros Hnone; [done|].
  rewrite filter_cons_False by (apply Hnone; left).
  apply IH. intros y Hy. apply Hnone. by right.
Qed.

(** The store keeps the addresses apart: what a sequence does for the
    address [a] is what its calls for [a] do to the object of [a]. *)
Lemma monitor_project a calls (ws : gmap string WalletState) :
  stateOf a (monitor calls ws).1
  = (monitorOne (callsFor a calls) (stateOf a ws)).1 /\
  filter (fun n => n_address n = a) (monitor calls ws).2
  = (monitorOne (callsFor a calls) (stateOf a ws)).2.
Proof.
  revert ws. induction calls as [|c calls IH]; intros ws; [done|].
  unfold callsFor in *. simpl monitor.
  rewrite isSpamActivity_classify.
  destruct (monitor calls _) as [ws2 ns] eqn:Hm.
  specialize (IH (<[address c := (classify (at_time c) (recentTxs (txs c))
                      (height c) (stateOf (address c) ws)).1]> ws)).
  rewrite Hm in IH. simpl in IH. simpl.
  rewrite filter_app.
  destruct (decide (address c = a)) as [<-|Hne].
  - rewrite filter_cons_True by done. simpl.
    rewrite stateOf_insert_eq in IH.
    destruct (classify _ _ _ _) as [s1 v]. simpl in *.
    destruct (monitorOne _ s1) as [s2 ns']. simpl in *.
    destruct IH as [-> <-]. split; [done|]. f_equal.
    apply filter_all. intros n. apply notificationOf_address.
  - rewrite filter_cons_False by done.
    rewrite stateOf_insert_ne in IH by done.
    destruct IH as [-> <-]. split; [done|].
    rewrite (filter_none _ (notificationOf _ _)); [done|].
    intros n Hn%notificationOf_address. congruence.
Qed.

Lemma monitorOne_time_mono calls state :
  lastStateChangeTime state <= lastStateChangeTime (monitorOne calls state).1.
Proof.
  revert state. induction calls as [|c calls IH]; intros state; simpl; [lia|].
  pose proof (classify_cases (at_time c) (recentTxs (txs c)) (height c) state)
    as Hc.
  destruct (classify _ _ _ _) as [s1 v]. simpl in Hc.
  specialize (IH s1). destruct (monitorOne calls s1) as [s2 ns]. simpl in *.
  destruct Hc as [(_ & _ & _ & Heq)|(top & _ & _ & Hold & [(_ & _ & ->)|(_ & _ & ->)])];
    simpl in *; lia.
Qed.

(** C6: for every address the stored [lastStateChangeTime] never decreases:
    no call sets it to a value smaller than the one it had, and along every
    sequence of calls its value after a longer run of the sequence is at
    least its value after a shorter one (an address without an entry counts
    with the 0 of the object it will be given). *)
Theorem lastStateChangeTime_monotone (ws : gmap string WalletState) a :
  (forall now transactions b currentBlock,
      lastStateChangeTime (stateOf a ws)
      <= lastStateChangeTime
           (stateOf a (isSpamActivity now transactions b currentBlock ws).1)) /\
  (forall calls1 calls2,
      lastStateChangeTime (stateOf a (monitor calls1 ws).1)
      <= lastStateChangeTime (stateOf a (monitor (calls1 ++ calls2) ws).1)).
Proof.
  assert (forall calls ws',
            lastStateChangeTime (stateOf a ws')
            <= lastStateChangeTime (stateOf a (monitor calls ws').1)) as Hrun.
  { intros calls ws'. rewrite (proj1 (monitor_project a calls ws')).
    apply monitorOne_time_mono. }
  split.
  - intros now transactions b currentBlock.
    specialize (Hrun [ {| at_time := now; txs := transactions; address := b;
                          height := currentBlock |} ] ws).
    simpl in Hrun. by destruct (isSpamActivity _ _ _ _ _).
  - intros calls1 calls2. rewrite monitor_app. simpl. apply Hrun.
Qed.

Lemma monitorOne_alternating calls state :
  alternating (isSpamming state) (n_type <$> (monitorOne calls state).2).
Proof.
  revert state. induction calls as [|c calls IH]; intros state; simpl; [done|].
  pose proof (classify_cases (at_time c) (recentTxs (txs c)) (height c) state)
    as Hc.
  destruct (classify _ _ _ _) as [s1 v]. simpl in Hc.
  specialize (IH s1). destruct (monitorOne calls s1) as [s2 ns]. simpl in *.
  destruct Hc as [(-> & Hs & _)|(top & Htop & _ & _ & [(-> & Hs & ->)|(-> & Hs & ->)])].
  - rewrite notificationOf_noChange. simpl. by rewrite <- Hs.
  - rewrite (notificationOf_notify _ _ top Htop). simpl in *.
    by rewrite Hs.
  - rewrite (notificationOf_notify _ _ top Htop). simpl in *.
    by rewrite Hs.
Qed.

Lemma alternating_adjacent spamming l i t :
  alternating spamming l ->
  l !! i = Some t -> l !! S i <> Some t.
Proof.
  revert spamming i. induction l as [|x l IH]; intros spamming i; [done|].
  intros [-> Hl]. destruct i as [|i]; simpl.
  - intros [= <-]. destruct l as [|y l]; [done|]. destruct Hl as [-> _].
    simpl. by destruct spamming.
  - by apply (IH (negb spamming)).
Qed.

(** C4: along every sequence of calls, the notifications for an address
    come in turns: a start is followed by a stop and a stop by a start,
    beginning with a start when the address is idle (or unknown) and with a
    stop when it is bursting; no two consecutive notifications for the
    address are of the same kind. *)
Theorem notifications_alternate calls (ws : gmap string WalletState) a :
  let kinds :=
    n_type <$> filter (fun n => n_address n = a) (monitor calls ws).2 in
  alternating (isSpamming (stateOf a ws)) kinds /\
  forall i t, kinds !! i = Some t -> kinds !! S i <> Some t.
Proof.
  intros kinds.
  assert (alternating (isSpamming (stateOf a ws)) kinds) as Halt.
  { subst kinds. rewrite (proj2 (monitor_project a calls ws)).
    apply monitorOne_alternating. }
  split; [done|]. intros i t. by apply alternating_adjacent with (1 := Halt).
Qed.

(** ** Notified once *)

Lemma drop_while_elem_of {A} (p : A -> bool) (l : list A) x :
  x ∈ drop_while p l -> x ∈ l.
Proof.
  induction l as [|y l IH]; simpl; [done|].
  destruct (p y); [|done]. intros H%IH. by right.
Qed.

Lemma settled_tail seen state state' t tops :
  settled seen state (t :: tops) ->
  lastNotifiedTxHash state' = lastNotifiedTxHash state ->
  settled seen state' tops.
Proof.
  intros Hs Heq h Hh. destruct (Hs h Hh) as [Hd Hn]. split.
  - simpl in Hd. destruct (String.eqb_spec h t) as [->|Hne]; [done|].
    intros Hin%drop_while_elem_of. apply Hd. by right.
  - rewrite Heq. intros Hne Hin. apply (Hn Hne). by right.
Qed.

Lemma settled_notified seen state spamming top now tops :
  settled seen state (hash top :: tops) ->
  hash top ∉ drop_while (String.eqb (hash top)) tops ->
  settled (hash top :: seen) (afterTransition spamming top now) tops.
Proof.
  intros Hs Ht h [->|Hh]%elem_of_cons.
  - split; [done|]. simpl. congruence.
  - destruct (Hs h Hh) as [Hd _]. simpl in *.
    destruct (String.eqb_spec h (hash top)) as [->|Hne].
    + split; [done|]. congruence.
    + split.
      * intros Hin%drop_while_elem_of. apply Hd. by right.
      * intros _ Hin. apply Hd. by right.
Qed.

Lemma monitorOne_fresh calls : forall state seen,
  non_recurring (calls ≫= topHash) = true ->
  settled seen state (calls ≫= topHash) ->
  NoDup (n_hash <$> (monitorOne calls state).2) /\
  forall h, h ∈ n_hash <$> (monitorOne calls state).2 -> h ∉ seen.
Proof.
  induction calls as [|c calls IH]; intros state seen Hnr Hs.
  { simpl. split; [constructor|]. by intros h ?%elem_of_nil. }
  simpl. simpl in Hnr, Hs.
  pose proof (classify_cases (at_time c) (recentTxs (txs c)) (height c) state)
    as Hc.
  destruct (classify _ _ _ _) as [s1 v]. simpl in Hc.
  unfold topHash at 1 in Hnr. unfold topHash at 1 in Hs.
  destruct (recentTxs (txs c)) as [|top w] eqn:Hw.
  - (* no transaction: nothing happens *)
    destruct Hc as [(-> & _ & Hh & _)|(top & ? & _)]; [|done].
    rewrite notificationOf_noChange. simpl in *.
    destruct (monitorOne calls s1) as [s2 ns] eqn:Hm. simpl.
    specialize (IH s1 seen Hnr). rewrite Hm in IH. apply IH.
    intros h Hin. rewrite Hh. by apply Hs.
  - simpl in Hnr, Hs.
    apply andb_true_iff in Hnr as [Hfresh Hnr].
    apply negb_true_iff, bool_decide_eq_false in Hfresh.
    destruct Hc as [(-> & _ & Hh & _)|(top' & [= <-] & Hne & _ & Hv)].
    + rewrite notificationOf_noChange. simpl.
      destruct (monitorOne calls s1) as [s2 ns] eqn:Hm. simpl.
      specialize (IH s1 seen Hnr). rewrite Hm in IH. apply IH.
      by apply (settled_tail seen state s1 (hash top)).
    + assert (exists t spamming, v = notify t /\
                s1 = afterTransition spamming top (at_time c))
        as (t & spamming & -> & ->).
      { destruct Hv as [(-> & _ & ->)|(-> & _ & ->)]; eauto. }
      rewrite (notificationOf_notify c t top) by by rewrite Hw.
      destruct (monitorOne calls _) as [s2 ns] eqn:Hm. simpl.
      specialize (IH (afterTransition spamming top (at_time c))
                     (hash top :: seen) Hnr).
      rewrite Hm in IH. simpl in IH.
      destruct IH as [Hnd Hout]; [by apply (settled_notified seen state)|].
      split.
      * constructor; [|done]. intros Hin. apply (Hout _ Hin). by left.
      * intros h [->|Hin]%elem_of_cons.
        -- intros Hseen. destruct (Hs _ Hseen) as [_ Hn].
           apply (Hn Hne). by left.
        -- intros Hseen. apply (Hout _ Hin). by right.
Qed.

Lemma NoDup_by_address (l : list Notification) :
  (forall a, NoDup (filter (fun n => n_address n = a) l)) -> NoDup l.
Proof.
  induction l as [|n l IH]; intros Hall; [constructor|].
  constructor.
  - intros Hin. specialize (Hall (n_address n)).
    rewrite filter_cons_True in Hall by done.
    apply NoDup_cons in Hall as [Hnot _]. apply Hnot.
    by apply list_elem_of_filter.
  - apply IH. intros a. specialize (Hall a).
    destruct (decide (n_address n = a)).
    + rewrite filter_cons_True in Hall by done.
      by apply NoDup_cons in Hall as [_ ?].
    + by rewrite filter_cons_False in Hall.
Qed.

Lemma nonRecurringTops_for calls a :
  nonRecurringTops calls = true -> non_recurring (topsFor a calls) = true.
Proof.
  intros Hall. unfold topsFor.
  destruct (callsFor a calls) as [|c cs] eqn:Hcs; [done|].
  assert (c ∈ callsFor a calls) as Hc by (rewrite Hcs; left).
  apply list_elem_of_filter in Hc as [<- Hc].
  unfold nonRecurringTops in Hall. rewrite forallb_forall in Hall.
  rewrite <- Hcs. apply (Hall c). by apply list_elem_of_In.
Qed.

(** The lagging node of [recurringCalls] brings the hash "h100" back on top
    after the stop was notified for "h80": the start for "h100" is notified
    a second time. *)
Lemma recurring_hash_notified_twice :
  ~ notifiedAtMostOnce recurringCalls ∅.
Proof.
  unfold notifiedAtMostOnce. intros Hnd.
  assert ((monitor recurringCalls ∅).2
          = [ {| n_address := "0xabc"; n_hash := "h100"; n_type := start |};
              {| n_address := "0xabc"; n_hash := "h80"; n_type := stop |};
              {| n_address := "0xabc"; n_hash := "h100"; n_type := start |} ])
    as Heq by by vm_compute.
  rewrite Heq in Hnd. apply NoDup_cons in Hnd as [Hnot _].
  apply Hnot. right. left.
Qed.

(** C3 (amended): the classifier remembers only the hash it notified last.
    Along a sequence of calls in which, for every address, a hash that was
    replaced on top of the window does not come back on top, no
    notification (address, hash, kind of transition) is emitted twice; and
    in any case, a call that follows a transition with the same hash on top
    of its window returns no notification and changes nothing. *)
Theorem notified_once calls (ws : gmap string WalletState) :
  nonRecurringTops calls = true ->
  notifiedAtMostOnce calls ws /\
  forall now transactions a currentBlock now' transactions' currentBlock'
         (ws0 : gmap string WalletState),
    let r := isSpamActivity now transactions a currentBlock ws0 in
    r.2 <> noChange ->
    hash <$> head (recentTxs transactions')
      = hash <$> head (recentTxs transactions) ->
    isSpamActivity now' transactions' a currentBlock' r.1 = (r.1, noChange).
Proof.
  intros Hnr. split.
  - apply NoDup_by_address. intros a.
    rewrite (proj2 (monitor_project a calls ws)).
    apply (NoDup_fmap_1 n_hash).
    apply (monitorOne_fresh (callsFor a calls) (stateOf a ws) []).
    + by apply nonRecurringTops_for.
    + by intros h ?%elem_of_nil.
  - intros now transactions a currentBlock now' transactions' currentBlock'
      ws0 r Hfired Hsame. subst r.
    rewrite (isSpamActivity_classify now transactions) in *. simpl in *.
    rewrite (isSpamActivity_classify now' transactions').
    rewrite stateOf_insert_eq. simpl.
    pose proof (classify_cases now (recentTxs transactions) currentBlock
                  (stateOf a ws0)) as Hc. simpl in Hc.
    destruct (classify now _ _ _) as [s1 v]. simpl in *.
    destruct Hc as [(-> & _)|(top & Htop & _ & _ & Hv)]; [done|].
    assert (lastNotifiedTxHash s1 = hash top) as Hlast.
    { by destruct Hv as [(_ & _ & ->)|(_ & _ & ->)]. }
    rewrite Htop in Hsame.
    destruct (recentTxs transactions') as [|top' w'] eqn:Hw';
      [done|]. simpl in Hsame. injection Hsame as Hsame.
    unfold classify. rewrite Hlast, Hsame.
    rewrite (proj2 (String.eqb_eq _ _) eq_refl). simpl.
    by rewrite insert_insert_eq.
Qed.

Lemma notified_once_witness :
  nonRecurringTops growingCalls = true /\
  (notifiedAtMostOnce growingCalls ∅ /\
   forall now transactions a currentBlock now' transactions' currentBlock'
          (ws0 : gmap string WalletState),
     let r := isSpamActivity now transactions a currentBlock ws0 in
     r.2 <> noChange ->
     hash <$> head (recentTxs transactions')
       = hash <$> head (recentTxs transactions) ->
     isSpamActivity now' transactions' a currentBlock' r.1 = (r.1, noChange)).
Proof.
  split; [by vm_compute|].
  apply (notified_once growingCalls ∅). by vm_compute.
Defined.

(** ** The fetch layer *)

Lemma slept_app tr1 tr2 : slept (tr1 ++ tr2) = slept tr1 + slept tr2.
Proof.
  induction tr1 as [|e tr1 IH]; simpl; [done|]. destruct e; lia.
Qed.

Lemma requestCount_app tr1 tr2 :
  requestCount (tr1 ++ tr2) = (requestCount tr1 + requestCount tr2)%nat.
Proof.
  induction tr1 as [|e tr1 IH]; simpl; [done|]. destruct e; lia.
Qed.

Lemma slept_nonneg tr : 0 <= slept tr.
Proof. induction tr as [|e tr IH]; simpl; [done|]. destruct e; lia. Qed.

Lemma follows_refl w : follows w w [].
Proof. unfold follows. simpl. repeat split; (done || lia). Qed.

Lemma follows_trans w w1 w2 new1 new2 :
  follows w w1 new1 -> follows w1 w2 new2 -> follows w w2 (new2 ++ new1).
Proof.
  intros (Ht1 & Hr1 & Hc1 & Hs1) (Ht2 & Hr2 & Hc2 & Hs2).
  unfold follows. rewrite slept_app, requestCount_app.
  repeat split; [|lia|lia|congruence].
  rewrite Ht2, Ht1. by rewrite app_assoc.
Qed.

(** [rateLimitedDelay] returns; it waits until the time recorded for the
    credential under the cursor is [RATE_LIMIT_DELAY] old, and records the
    time it is then. *)
Lemma rateLimitedDelay_spec out w :
  exists w' new,
    rateLimitedDelay out w = (Returned tt, w') /\
    follows w w' new /\ requestCount new = O /\
    currentApiKeyIndex w' = currentApiKeyIndex w /\
    lastApiCalls w'
      = <[currentApiKeyIndex w := clock w']> (lastApiCalls w) /\
    forall last, lastApiCalls w !! currentApiKeyIndex w = Some last ->
                 last + RATE_LIMIT_DELAY <= clock w'.
Proof.
  unfold rateLimitedDelay, Date_now, gets, mbind, M_bind, mret, M_ret.
  simpl. destruct (lastApiCalls w !! currentApiKeyIndex w) as [last|] eqn:Hl.
  - destruct (Z.ltb_spec (clock w - last) RATE_LIMIT_DELAY) as [Hlt|Hge]; simpl.
    + eexists _, [Slept _]. split; [done|]. unfold follows. simpl.
      repeat split; try done; try lia.
      intros ? [= <-]. lia.
    + eexists _, []. split; [done|]. unfold follows. simpl.
      repeat split; try done; try lia.
      intros ? [= <-]. lia.
  - eexists _, []. split; [done|]. unfold follows. simpl.
    repeat split; try done; lia.
Qed.

Lemma fetchAttempt_spec out a w :
  exists w' new,
    follows w w' new /\ requestCount new = 1%nat /\
    fetchAttempt out a w
    = (match txlist out (requests w) a with
       | TxRejected => Thrown "Network Error"
       | TxData status result => Returned (rowsFor a status result)
       end, w').
Proof.
  destruct (rateLimitedDelay_spec out w)
    as (w1 & new1 & Hrun & Hf1 & Hn1 & _).
  unfold fetchAttempt, mbind, M_bind. rewrite Hrun. simpl.
  pose proof Hf1 as (Ht & Hr & Hc & Hs).
  unfold axios_get_txlist. simpl.
  replace (requests w1) with (requests w) by lia.
  eexists _, (Requested _ :: new1). split; [|split].
  3: { destruct (txlist out (requests w) a) as [|status result]; [done|].
       simpl. unfold rowsFor, mret, M_ret.
       destruct result as [result|]; [|done].
       by destruct (String.eqb status "1"). }
  - unfold follows. simpl. rewrite Ht. repeat split; try done; lia.
  - simpl. lia.
Qed.

(** The equation of the source: one attempt, and on an error either the
    delay and the call with [retryCount + 1], or the empty array. *)
Lemma fetchTransactions_unfold out a retryCount :
  fetchTransactions out a retryCount =
  try_catch (fetchAttempt out a)
    (fun error =>
       if (retryCount <? MAX_RETRIES)%nat then
         delay out (RETRY_DELAY * (Z.of_nat retryCount + 1));;
         fetchTransactions out a (retryCount + 1)
       else
         console_error;;
         mret []).
Proof.
  unfold fetchTransactions.
  destruct (Nat.ltb_spec retryCount MAX_RETRIES) as [Hlt|Hge].
  - replace (MAX_RETRIES - retryCount)%nat
      with (S (MAX_RETRIES - (retryCount + 1))) by lia.
    cbn [fetchTransactions_fuel].
    by rewrite (proj2 (Nat.ltb_lt _ _) Hlt).
  - replace (MAX_RETRIES - retryCount)%nat with O by lia.
    cbn [fetchTransactions_fuel].
    by rewrite (proj2 (Nat.ltb_ge _ _) Hge).
Qed.

Lemma delay_follows out ms w :
  exists w', delay out ms w = (Returned tt, w') /\ follows w w' [Slept ms].
Proof.
  eexists. split; [done|]. unfold follows. simpl. repeat split; try done; lia.
Qed.

Lemma console_error_follows w :
  exists w', console_error w = (Returned tt, w') /\ follows w w' [Complained].
Proof.
  eexists. split; [done|]. unfold follows. simpl. repeat split; try done; lia.
Qed.

(** Whatever the upstream does, the call returns, after no more requests
    than the retries allow. *)
Lemma fetchTransactions_fuel_total out a fuel : forall retryCount w,
  (MAX_RETRIES - retryCount <= fuel)%nat ->
  exists txs w' new,
    fetchTransactions_fuel out fuel a retryCount w = (Returned txs, w') /\
    follows w w' new /\
    (requestCount new <= S (MAX_RETRIES - retryCount))%nat.
Proof.
  induction fuel as [|fuel IH]; intros retryCount w Hfuel;
    destruct (fetchAttempt_spec out a w) as (w1 & new1 & Hf1 & Hn1 & Hrun);
    cbn [fetchTransactions_fuel]; unfold try_catch; rewrite Hrun;
    destruct (txlist out (requests w) a) as [|status result];
    try (eexists _, w1, new1; repeat split; [apply Hf1..|lia]).
  - rewrite (proj2 (Nat.ltb_ge retryCount MAX_RETRIES)) by lia.
    destruct (console_error_follows w1) as (w2 & Hrun2 & Hf2).
    unfold mbind, M_bind. rewrite Hrun2.
    eexists [], w2, _. split; [done|]. split; [by eapply follows_trans|].
    rewrite requestCount_app. simpl. lia.
  - destruct (Nat.ltb_spec retryCount MAX_RETRIES) as [Hlt|Hge].
    + destruct (delay_follows out (RETRY_DELAY * (Z.of_nat retryCount + 1)) w1)
        as (w2 & Hrun2 & Hf2).
      unfold mbind, M_bind. rewrite Hrun2.
      destruct (IH (retryCount + 1)%nat w2) as (txs & w3 & new3 & Hrun3 & Hf3 & Hn3);
        [lia|].
      rewrite Hrun3. eexists txs, w3, _. split; [done|].
      split; [eapply follows_trans; [|apply Hf3]; by eapply follows_trans|].
      rewrite !requestCount_app. simpl. lia.
    + destruct (console_error_follows w1) as (w2 & Hrun2 & Hf2).
      unfold mbind, M_bind. rewrite Hrun2.
      eexists [], w2, _. split; [done|]. split; [by eapply follows_trans|].
      rewrite requestCount_app. simpl. lia.
Qed.

(** [k] errors in a row from [retryCount] on: the delays add up to
    [RETRY_DELAY * ((retryCount + 1) + ... + (retryCount + k))]. *)
Lemma fetchTransactions_fuel_after out a k : forall fuel retryCount w,
  (retryCount + k <= MAX_RETRIES)%nat ->
  (MAX_RETRIES - retryCount <= fuel)%nat ->
  (forall i, (i < k)%nat -> txlist out (requests w + i) a = TxRejected) ->
  exists txs w' new,
    fetchTransactions_fuel out fuel a retryCount w = (Returned txs, w') /\
    follows w w' new /\
    (requestCount new <= S (MAX_RETRIES - retryCount))%nat /\
    (forall j, (1 <= j <= k)%nat ->
       Slept (RETRY_DELAY * Z.of_nat (retryCount + j)) ∈ new) /\
    (forall status result,
        txlist out (requests w + k) a = TxData status result ->
        txs = rowsFor a status result /\ requestCount new = S k /\
        RETRY_DELAY * (Z.of_nat k * Z.of_nat retryCount + triangle k)
          <= slept new) /\
    ((retryCount + k)%nat = MAX_RETRIES ->
     txlist out (requests w + k) a = TxRejected ->
     txs = [] /\ requestCount new = S k /\
     RETRY_DELAY * (Z.of_nat k * Z.of_nat retryCount + triangle k)
       <= slept new).
Proof.
  induction k as [|k IH]; intros fuel retryCount w Hk Hfuel Hfail.
  - rewrite Nat.add_0_r. simpl triangle.
    destruct (fetchAttempt_spec out a w) as (w1 & new1 & Hf1 & Hn1 & Hrun1).
    pose proof (slept_nonneg new1) as Hs1.
    destruct (txlist out (requests w) a) as [|status result] eqn:Hreply.
    + destruct (Nat.ltb_spec retryCount MAX_RETRIES) as [Hlt|Hge].
      * (* an error, and retries are left: the call returns all the same *)
        destruct (fetchTransactions_fuel_total out a fuel retryCount w Hfuel)
          as (txs & w' & new & Hrun & Hf & Hn).
        exists txs, w', new. split; [done|]. split; [done|]. split; [done|].
        split; [intros; lia|]. split; [intros; congruence|intros; lia].
      * (* an error on the last retry *)
        destruct (console_error_follows w1) as (w2 & Hrun2 & Hf2).
        exists [], w2, ([Complained] ++ new1).
        split.
        { destruct fuel; cbn [fetchTransactions_fuel]; unfold try_catch;
            rewrite Hrun1, (proj2 (Nat.ltb_ge retryCount MAX_RETRIES)) by lia;
            unfold mbind, M_bind; by rewrite Hrun2. }
        split; [by eapply follows_trans|].
        rewrite requestCount_app, slept_app. simpl.
        split; [lia|]. split; [intros; lia|]. split; [intros; congruence|].
        intros _ _. split; [done|]. split; lia.
    + exists (rowsFor a status result), w1, new1.
      split.
      { destruct fuel; cbn [fetchTransactions_fuel]; unfold try_catch;
          by rewrite Hrun1. }
      split; [done|]. split; [lia|]. split; [intros; lia|]. split; [|done].
      intros status' result' [= <- <-]. split; [done|]. split; lia.
  - destruct (fetchAttempt_spec out a w) as (w1 & new1 & Hf1 & Hn1 & Hrun1).
    pose proof (Hfail O ltac:(lia)) as Hrej.
    rewrite Nat.add_0_r in Hrej. rewrite Hrej in Hrun1.
    destruct fuel as [|fuel]; [unfold MAX_RETRIES in *; lia|].
    cbn [fetchTransactions_fuel]. unfold try_catch. rewrite Hrun1.
    rewrite (proj2 (Nat.ltb_lt retryCount MAX_RETRIES)) by lia.
    destruct (delay_follows out (RETRY_DELAY * (Z.of_nat retryCount + 1)) w1)
      as (w2 & Hrun2 & Hf2).
    unfold mbind, M_bind. rewrite Hrun2.
    assert (requests w2 = S (requests w)) as Hreq.
    { destruct Hf1 as (_ & Hr1 & _). destruct Hf2 as (_ & Hr2 & _).
      simpl in Hr2. lia. }
    destruct (IH fuel (retryCount + 1)%nat w2)
      as (txs & w3 & new3 & Hrun3 & Hf3 & Hn3 & Hdelays & Hdata & Hlast);
      [lia|lia| |].
    { intros i Hi. rewrite Hreq.
      replace (S (requests w) + i)%nat with (requests w + S i)%nat by lia.
      apply Hfail. lia. }
    rewrite Hrun3. eexists txs, w3, _. split; [done|].
    split; [eapply follows_trans; [|apply Hf3]; by eapply follows_trans|].
    assert (forall j, (1 <= j <= S k)%nat ->
              Slept (RETRY_DELAY * Z.of_nat (retryCount + j))
              ∈ new3 ++ [Slept (RETRY_DELAY * (Z.of_nat retryCount + 1))]
                     ++ new1) as Hall.
    { intros j Hj. destruct (decide (j = 1%nat)) as [->|Hne].
      - apply elem_of_app. right. apply elem_of_app. left.
        rewrite Nat2Z.inj_add. by left.
      - apply elem_of_app. left.
        replace (retryCount + j)%nat with (retryCount + 1 + (j - 1))%nat by lia.
        apply Hdelays. lia. }
    rewrite !slept_app, !requestCount_app. simpl.
    pose proof (slept_nonneg new1).
    replace (requests w2 + k)%nat with (requests w + S k)%nat in * by lia.
    assert (0 <= Z.of_nat retryCount) by lia.
    split; [lia|]. split; [done|]. split.
    + intros status result Hd.
      destruct (Hdata status result Hd) as (-> & Hc & Hs).
      split; [done|]. split; [lia|]. unfold RETRY_DELAY in *. lia.
    + intros Hmax Hrej'. destruct Hlast as (-> & Hc & Hs); [lia|done|].
      split; [done|]. split; [lia|]. unfold RETRY_DELAY in *. lia.
Qed.

(** C7: [fetchTransactions] makes one request and repeats it after an
    error, up to [MAX_RETRIES] = 3 times, waiting [RETRY_DELAY] times the
    number of the retry before each ([delay(RETRY_DELAY * j)] before the
    j-th retry): after [k] errors in a row the waiting adds up to
    [RETRY_DELAY * (1 + ... + k)] at least, so that an upstream
    that fails twice and then succeeds costs [RETRY_DELAY + 2 * RETRY_DELAY]
    before its rows (those sent to the address) are returned; when the last
    retry fails too the call returns the empty array; in every case it
    returns and does not throw. *)
Theorem fetchTransactions_resilient out a w k :
  (k <= MAX_RETRIES)%nat ->
  (forall i, (i < k)%nat -> txlist out (requests w + i) a = TxRejected) ->
  exists txs w' new,
    fetchTransactions out a 0 w = (Returned txs, w') /\
    follows w w' new /\
    (requestCount new <= 1 + MAX_RETRIES)%nat /\
    (forall j, (1 <= j <= k)%nat -> Slept (RETRY_DELAY * Z.of_nat j) ∈ new) /\
    (forall status result,
        txlist out (requests w + k) a = TxData status result ->
        txs = rowsFor a status result /\ requestCount new = S k /\
        RETRY_DELAY * triangle k <= slept new) /\
    (k = MAX_RETRIES ->
     txlist out (requests w + k) a = TxRejected ->
     txs = [] /\ requestCount new = S MAX_RETRIES /\
     RETRY_DELAY * triangle MAX_RETRIES <= slept new).
Proof.
  intros Hk Hfail. unfold fetchTransactions.
  destruct (fetchTransactions_fuel_after out a k (MAX_RETRIES - 0) O w)
    as (txs & w' & new & Hrun & Hf & Hn & Hdelays & Hdata & Hlast);
    [lia|lia|done|].
  exists txs, w', new. split; [done|]. split; [done|]. split; [lia|].
  split; [done|]. split.
  - intros status result Hd. destruct (Hdata status result Hd) as (? & ? & ?).
    split; [done|]. split; [done|]. lia.
  - intros -> Hrej. destruct Hlast as (? & ? & ?); [done|done|].
    split; [done|]. split; [done|]. lia.
Qed.

Lemma fetchTransactions_resilient_witness :
  let w := initialWorld flakyOutside 1700000000000 in
  (2 <= MAX_RETRIES)%nat /\
  (forall i, (i < 2)%nat ->
             txlist flakyOutside (requests w + i) "0xABC" = TxRejected) /\
  exists txs w' new,
    fetchTransactions flakyOutside "0xABC" 0 w = (Returned txs, w') /\
    follows w w' new /\
    (requestCount new <= 1 + MAX_RETRIES)%nat /\
    (forall j, (1 <= j <= 2)%nat -> Slept (RETRY_DELAY * Z.of_nat j) ∈ new) /\
    (forall status result,
        txlist flakyOutside (requests w + 2) "0xABC" = TxData status result ->
        txs = rowsFor "0xABC" status result /\ requestCount new = 3%nat /\
        RETRY_DELAY * triangle 2 <= slept new) /\
    (2%nat = MAX_RETRIES ->
     txlist flakyOutside (requests w + 2) "0xABC" = TxRejected ->
     txs = [] /\ requestCount new = S MAX_RETRIES /\
     RETRY_DELAY * triangle MAX_RETRIES <= slept new).
Proof.
  intros w.
  assert (forall i, (i < 2)%nat ->
             txlist flakyOutside (requests w + i) "0xABC" = TxRejected) as Hfail.
  { intros [|[|i]] Hi; [done|done|lia]. }
  split; [unfold MAX_RETRIES; lia|]. split; [done|].
  apply (fetchTransactions_resilient flakyOutside "0xABC" w 2);
    [unfold MAX_RETRIES; lia|done].
Defined.

(** The run of the witness: two errors, two delays of 1000 and 2000
    milliseconds, and the one row sent to the address. *)
Example fetch_after_two_errors :
  let r := fetchTransactions flakyOutside "0xABC" 0
             (initialWorld flakyOutside 1700000000000) in
  r.1 = Returned [sampleTx "h102" 102] /\
  trace r.2 = [ Requested (Some "key2"); Slept 2000;
                Requested (Some "key1"); Slept 1000;
                Requested (Some "key0") ] /\
  slept (trace r.2) = RETRY_DELAY + 2 * RETRY_DELAY.
Proof. by vm_compute. Qed.

(** ** The height of the chain *)

Lemma Math_max_spec values :
  match Math_max values with
  | None => values = []
  | Some m => m ∈ values /\ forall x, x ∈ values -> x <= m
  end.
Proof.
  induction values as [|x values IH]; simpl; [done|].
  destruct (Math_max values) as [m|].
  - destruct IH as [Hin Hmax]. split.
    + destruct (Z.max_spec x m) as [[_ ->]|[_ ->]]; [by right|by left].
    + intros y [->|Hy]%elem_of_cons; [lia|]. specialize (Hmax y Hy). lia.
  - subst values. split; [by left|].
    intros y [->|Hy]%elem_of_cons; [lia|]. by apply elem_of_nil in Hy.
Qed.

Lemma positive_blocks_elem_of (ws : gmap string WalletState) x :
  x ∈ filter (fun block => 0 < block) (lastTxBlock <$> Object_values ws)
  <-> 0 < x /\ exists a s, ws !! a = Some s /\ lastTxBlock s = x.
Proof.
  rewrite list_elem_of_filter. unfold Object_values.
  rewrite list_elem_of_fmap. split.
  - intros (Hpos & s & -> & Hs). split; [done|].
    apply list_elem_of_fmap in Hs as ([a s'] & -> & Hin).
    apply elem_of_map_to_list in Hin. by exists a, s'.
  - intros (Hpos & a & s & Hs & <-). split; [done|].
    exists s. split; [done|]. apply list_elem_of_fmap.
    exists (a, s). split; [done|]. by apply elem_of_map_to_list.
Qed.

(** The estimate is the largest positive [lastTxBlock] of the store, and
    24000000 when the store has none. *)
Lemma lastKnownEstimate_spec (ws : gmap string WalletState) :
  ((exists a s, ws !! a = Some s /\ 0 < lastTxBlock s) ->
   (exists a s, ws !! a = Some s /\ lastTxBlock s = lastKnownEstimate ws) /\
   (forall a s, ws !! a = Some s -> lastTxBlock s <= lastKnownEstimate ws)) /\
  ((forall a s, ws !! a = Some s -> lastTxBlock s <= 0) ->
   lastKnownEstimate ws = 24000000).
Proof.
  unfold lastKnownEstimate.
  pose proof (Math_max_spec
    (filter (fun block => 0 < block) (lastTxBlock <$> Object_values ws)))
    as Hmax.
  destruct (Math_max _) as [m|].
  - destruct Hmax as [Hin Hmax].
    apply positive_blocks_elem_of in Hin as (Hpos & a & s & Hs & Hm).
    destruct (Z.ltb_spec 0 m) as [_|?]; [|lia]. split.
    + intros _. split; [by exists a, s|].
      intros a' s' Hs'. destruct (Z.lt_ge_cases 0 (lastTxBlock s')) as [Hp|?];
        [|lia].
      apply Hmax, positive_blocks_elem_of. split; [done|]. by exists a', s'.
    + intros Hnone. specialize (Hnone a s Hs). lia.
  - split; [|done]. intros (a & s & Hs & Hpos).
    assert (lastTxBlock s ∈ filter (fun block => 0 < block)
                               (lastTxBlock <$> Object_values ws)) as Hin.
    { apply positive_blocks_elem_of. split; [done|]. by exists a, s. }
    rewrite Hmax in Hin. by apply elem_of_nil in Hin.
Qed.

Lemma heightAttempt_spec out w :
  exists w' new,
    follows w w' new /\ requestCount new = 1%nat /\
    heightAttempt out w
    = (match eth_blockNumber out (requests w) with
       | HeightRejected => Thrown "Network Error"
       | HeightData None => Thrown "Invalid API response"
       | HeightData (Some n) => Returned n
       end, w').
Proof.
  destruct (rateLimitedDelay_spec out w)
    as (w1 & new1 & Hrun & Hf1 & Hn1 & _).
  unfold heightAttempt, mbind, M_bind. rewrite Hrun. simpl.
  pose proof Hf1 as (Ht & Hr & Hc & Hs).
  unfold axios_get_blockNumber. simpl.
  replace (requests w1) with (requests w) by lia.
  destruct (eth_blockNumber out (requests w)) as [|[n|]]; simpl.
  - eexists _, (Requested _ :: new1). split; [|split; [|done]].
    + unfold follows. simpl. rewrite Ht. repeat split; try done; lia.
    + simpl. lia.
  - eexists _, (Requested _ :: new1). split; [|split; [|done]].
    + unfold follows. simpl. rewrite Ht. repeat split; try done; lia.
    + simpl. lia.
  - eexists _, (Complained :: Requested _ :: new1). split; [|split; [|done]].
    + unfold follows. simpl. rewrite Ht. repeat split; try done; lia.
    + simpl. lia.
Qed.

Lemma getCurrentBlockNumber_unfold out retryCount :
  getCurrentBlockNumber out retryCount =
  try_catch (heightAttempt out)
    (fun error =>
       if (retryCount <? MAX_RETRIES)%nat then
         delay out (RETRY_DELAY * (Z.of_nat retryCount + 1));;
         getCurrentBlockNumber out (retryCount + 1)
       else
         console_error;;
         ws ← gets walletStates;
         mret (lastKnownEstimate ws)).
Proof.
  unfold getCurrentBlockNumber.
  destruct (Nat.ltb_spec retryCount MAX_RETRIES) as [Hlt|Hge].
  - replace (MAX_RETRIES - retryCount)%nat
      with (S (MAX_RETRIES - (retryCount + 1))) by lia.
    cbn [getCurrentBlockNumber_fuel].
    by rewrite (proj2 (Nat.ltb_lt _ _) Hlt).
  - replace (MAX_RETRIES - retryCount)%nat with O by lia.
    cbn [getCurrentBlockNumber_fuel].
    by rewrite (proj2 (Nat.ltb_ge _ _) Hge).
Qed.

(** Whatever the upstream does, [getCurrentBlockNumber] returns a number. *)
Lemma getCurrentBlockNumber_fuel_total out fuel : forall retryCount w,
  (MAX_RETRIES - retryCount <= fuel)%nat ->
  exists n w' new,
    getCurrentBlockNumber_fuel out fuel retryCount w = (Returned n, w') /\
    follows w w' new /\
    (requestCount new <= S (MAX_RETRIES - retryCount))%nat.
Proof.
  induction fuel as [|fuel IH]; intros retryCount w Hfuel;
    destruct (heightAttempt_spec out w) as (w1 & new1 & Hf1 & Hn1 & Hrun);
    cbn [getCurrentBlockNumber_fuel]; unfold try_catch; rewrite Hrun;
    destruct (eth_blockNumber out (requests w)) as [|[n|]];
    try (eexists _, w1, new1; repeat split; [apply Hf1..|lia]).
  1,2: rewrite (proj2 (Nat.ltb_ge retryCount MAX_RETRIES)) by lia;
    destruct (console_error_follows w1) as (w2 & Hrun2 & Hf2);
    unfold mbind, M_bind, gets; rewrite Hrun2;
    eexists _, w2, _; (split; [done|]); (split; [by eapply follows_trans|]);
    rewrite requestCount_app; simpl; lia.
  all: destruct (Nat.ltb_spec retryCount MAX_RETRIES) as [Hlt|Hge];
    [ destruct (delay_follows out (RETRY_DELAY * (Z.of_nat retryCount + 1)) w1)
        as (w2 & Hrun2 & Hf2);
      unfold mbind, M_bind; rewrite Hrun2;
      destruct (IH (retryCount + 1)%nat w2)
        as (n' & w3 & new3 & Hrun3 & Hf3 & Hn3); [lia|];
      rewrite Hrun3; eexists n', w3, _; (split; [done|]);
      (split; [eapply follows_trans; [|apply Hf3]; by eapply follows_trans|]);
      rewrite !requestCount_app; simpl; lia
    | destruct (console_error_follows w1) as (w2 & Hrun2 & Hf2);
      unfold mbind, M_bind, gets; rewrite Hrun2;
      eexists _, w2, _; (split; [done|]);
      (split; [by eapply follows_trans|]);
      rewrite requestCount_app; simpl; lia ].
Qed.

(** When every attempt fails, the last one included, the estimate of the
    store is returned. *)
Lemma getCurrentBlockNumber_fuel_exhausted out fuel : forall retryCount w,
  (retryCount <= MAX_RETRIES)%nat ->
  (MAX_RETRIES - retryCount <= fuel)%nat ->
  (forall i, (i <= MAX_RETRIES - retryCount)%nat ->
             heightFails (eth_blockNumber out (requests w + i))) ->
  exists w' new,
    getCurrentBlockNumber_fuel out fuel retryCount w
    = (Returned (lastKnownEstimate (walletStates w)), w') /\
    follows w w' new /\
    requestCount new = S (MAX_RETRIES - retryCount).
Proof.
  induction fuel as [|fuel IH]; intros retryCount w Hrc Hfuel Hfail;
    destruct (heightAttempt_spec out w) as (w1 & new1 & Hf1 & Hn1 & Hrun);
    pose proof (Hfail O ltac:(lia)) as Hfail0;
    rewrite Nat.add_0_r in Hfail0;
    cbn [getCurrentBlockNumber_fuel]; unfold try_catch; rewrite Hrun;
    destruct (eth_blockNumber out (requests w)) as [|[n|]]; try done.
  1,2: rewrite (proj2 (Nat.ltb_ge retryCount MAX_RETRIES)) by lia;
    destruct (console_error_follows w1) as (w2 & Hrun2 & Hf2);
    unfold mbind, M_bind, gets; rewrite Hrun2;
    replace (walletStates w2) with (walletStates w)
      by (destruct Hf1 as (_ & _ & _ & <-); by destruct Hf2 as (_ & _ & _ & <-));
    eexists w2, _; (split; [done|]); (split; [by eapply follows_trans|]);
    rewrite requestCount_app; simpl; lia.
  all: destruct (Nat.ltb_spec retryCount MAX_RETRIES) as [Hlt|Hge];
    [ destruct (delay_follows out (RETRY_DELAY * (Z.of_nat retryCount + 1)) w1)
        as (w2 & Hrun2 & Hf2);
      unfold mbind, M_bind; rewrite Hrun2;
      assert (requests w2 = S (requests w)) as Hreq
        by (destruct Hf1 as (_ & Hr1 & _); destruct Hf2 as (_ & Hr2 & _);
            simpl in Hr2; lia);
      destruct (IH (retryCount + 1)%nat w2) as (w3 & new3 & Hrun3 & Hf3 & Hn3);
        [ lia | lia
        | intros i Hi; rewrite Hreq;
          replace (S (requests w) + i)%nat with (requests w + S i)%nat by lia;
          apply Hfail; lia
        | ];
      rewrite Hrun3;
      replace (walletStates w2) with (walletStates w)
        by (destruct Hf1 as (_ & _ & _ & <-);
            by destruct Hf2 as (_ & _ & _ & <-));
      eexists w3, _; (split; [done|]);
      (split; [eapply follows_trans; [|apply Hf3]; by eapply follows_trans|]);
      rewrite !requestCount_app; simpl; lia
    | destruct (console_error_follows w1) as (w2 & Hrun2 & Hf2);
      unfold mbind, M_bind, gets; rewrite Hrun2;
      replace (walletStates w2) with (walletStates w)
        by (destruct Hf1 as (_ & _ & _ & <-);
            by destruct Hf2 as (_ & _ & _ & <-));
      eexists w2, _; (split; [done|]); (split; [by eapply follows_trans|]);
      rewrite requestCount_app; simpl; lia ].
Qed.

Lemma getCurrentBlockNumber_returns out w :
  exists n w', getCurrentBlockNumber out 0 w = (Returned n, w').
Proof.
  destruct (getCurrentBlockNumber_fuel_total out (MAX_RETRIES - 0) O w)
    as (n & w' & _ & Hrun & _); [lia|]. by exists n, w'.
Qed.

(** C8: when all the attempts of [getCurrentBlockNumber] fail, the first
    and the [MAX_RETRIES] retries, the call returns (it does not throw) the
    largest [lastTxBlock] of the wallet states, counting the positive ones
    only, and 24000000 when no wallet state has a positive [lastTxBlock]. *)
Theorem getCurrentBlockNumber_fallback out w :
  (forall i, (i <= MAX_RETRIES)%nat ->
             heightFails (eth_blockNumber out (requests w + i))) ->
  exists v w' new,
    getCurrentBlockNumber out 0 w = (Returned v, w') /\
    follows w w' new /\
    requestCount new = S MAX_RETRIES /\
    ((exists a s, walletStates w !! a = Some s /\ 0 < lastTxBlock s) ->
     (exists a s, walletStates w !! a = Some s /\ lastTxBlock s = v) /\
     (forall a s, walletStates w !! a = Some s -> lastTxBlock s <= v)) /\
    ((forall a s, walletStates w !! a = Some s -> lastTxBlock s <= 0) ->
     v = 24000000).
Proof.
  intros Hfail. unfold getCurrentBlockNumber.
  destruct (getCurrentBlockNumber_fuel_exhausted out (MAX_RETRIES - 0) O w)
    as (w' & new & Hrun & Hf & Hn); [lia|lia|done|].
  exists (lastKnownEstimate (walletStates w)), w', new.
  split; [done|]. split; [done|]. split; [lia|].
  apply lastKnownEstimate_spec.
Qed.

Lemma getCurrentBlockNumber_fallback_witness :
  (forall i, (i <= MAX_RETRIES)%nat ->
             heightFails (eth_blockNumber flakyOutside (requests seenWorld + i)))
  /\
  exists v w' new,
    getCurrentBlockNumber flakyOutside 0 seenWorld = (Returned v, w') /\
    follows seenWorld w' new /\
    requestCount new = S MAX_RETRIES /\
    ((exists a s, walletStates seenWorld !! a = Some s /\ 0 < lastTxBlock s) ->
     (exists a s, walletStates seenWorld !! a = Some s /\ lastTxBlock s = v) /\
     (forall a s, walletStates seenWorld !! a = Some s -> lastTxBlock s <= v))
    /\
    ((forall a s, walletStates seenWorld !! a = Some s -> lastTxBlock s <= 0) ->
     v = 24000000).
Proof.
  assert (forall i, (i <= MAX_RETRIES)%nat ->
            heightFails (eth_blockNumber flakyOutside (requests seenWorld + i)))
    as Hfail.
  { intros [|[|[|[|i]]]] Hi; try done. }
  split; [done|]. by apply (getCurrentBlockNumber_fallback flakyOutside seenWorld).
Defined.

(** The runs of the witness and of a module that has classified nothing. *)
Example fallback_examples :
  (getCurrentBlockNumber flakyOutside 0 seenWorld).1 = Returned 142 /\
  (getCurrentBlockNumber flakyOutside 0
     (initialWorld flakyOutside 1700000000000)).1 = Returned 24000000.
Proof. by vm_compute. Qed.

(** ** The rotation of the credentials *)

(** One acquisition: the credential under the cursor is returned, the
    cursor moves on by one around the pool, and the time recorded for the
    credential is [RATE_LIMIT_DELAY] later, at least, than the time that was
    recorded for it before. *)
Lemma acquire_spec out w i :
  cursorAt out w i ->
  exists k t w',
    acquire out w
    = (Returned {| keyIndex := Some i; key := Some k; recorded := Some t |},
       w') /\
    API_KEYS out !! i = Some k /\
    cursorAt out w' ((i + 1) `mod` length (API_KEYS out))%nat /\
    lastApiCalls w' = <[Some i := t]> (lastApiCalls w) /\
    (forall last, lastApiCalls w !! Some i = Some last ->
                  last + RATE_LIMIT_DELAY <= t).
Proof.
  intros [Hcur Hidx].
  destruct (rateLimitedDelay_spec out w)
    as (w1 & new1 & Hrun & _ & _ & Hi1 & Hl1 & Hspace).
  rewrite Hcur in Hi1, Hl1, Hspace.
  destruct (lookup_lt_is_Some_2 (API_KEYS out) i Hidx) as [k Hk].
  unfold acquire, gets, mbind, M_bind. rewrite Hrun, Hcur. simpl.
  eexists k, (clock w1), _. split.
  { unfold mret, M_ret. rewrite Hi1, Hl1. simpl. rewrite Hk.
    by rewrite lookup_insert_eq. }
  simpl. split; [done|]. split; [|by split].
  split; simpl.
  - unfold next_index. destruct (Nat.eqb_spec (length (API_KEYS out)) 0);
      [lia|done].
  - apply Nat.mod_upper_bound. lia.
Qed.

Lemma initialWorld_cursorAt out t0 :
  API_KEYS out <> [] -> cursorAt out (initialWorld out t0) 0.
Proof.
  intros Hne. split; simpl; [done|].
  destruct (API_KEYS out); [done|]. simpl. lia.
Qed.

(** X21: acquisitions made one after the other ([rateLimitedDelay], then
    [getNextApiKey], each finished before the next begins) on a pool of
    N >= 1 credentials never throw, whatever
    the time between them and the lateness of the timers; the n-th of them
    takes the credential at the cursor moved on n times around the pool;
    and the time recorded for a credential by an acquisition is
    [RATE_LIMIT_DELAY] later, at least, than the time recorded for the same
    credential by any earlier acquisition, and than the time the array held
    for it at the beginning. *)
Theorem acquisitions_round_robin_spaced out gaps : forall w i,
  cursorAt out w i ->
  exists acqs w',
    acquisitions out gaps w = (Returned acqs, w') /\
    length acqs = length gaps /\
    (forall n acq, acqs !! n = Some acq ->
       keyIndex acq = Some ((i + n) `mod` length (API_KEYS out))%nat /\
       key acq = API_KEYS out !! ((i + n) `mod` length (API_KEYS out))%nat /\
       is_Some (key acq) /\ is_Some (recorded acq)) /\
    (forall n acq last, acqs !! n = Some acq ->
       lastApiCalls w !! keyIndex acq = Some last ->
       exists t, recorded acq = Some t /\ last + RATE_LIMIT_DELAY <= t) /\
    (forall n m an am tn tm, (n < m)%nat ->
       acqs !! n = Some an -> acqs !! m = Some am ->
       keyIndex an = keyIndex am ->
       recorded an = Some tn -> recorded am = Some tm ->
       tn + RATE_LIMIT_DELAY <= tm).
Proof.
  induction gaps as [|dt gaps IH]; intros w i Hcur.
  { exists [], w. split; [done|]. split; [done|].
    split; [|split]; intros n; intros; by destruct n. }
  cbn [acquisitions]. unfold mbind, M_bind, elapse at 1.
  set (w0 := {| clock := clock w + Z.of_N dt;
                currentApiKeyIndex := currentApiKeyIndex w;
                lastApiCalls := lastApiCalls w;
                walletStates := walletStates w; requests := requests w;
                timers := timers w; trace := trace w |}).
  assert (cursorAt out w0 i) as Hcur0 by done.
  destruct (acquire_spec out w0 i Hcur0)
    as (k & t0 & w1 & Hrun & Hk & Hcur1 & Hlast1 & Hspace).
  simpl in Hlast1, Hspace. rewrite Hrun.
  destruct (IH w1 _ Hcur1) as (acqs & w' & Hrest & Hlen & HA & HB & HC).
  rewrite Hrest. eexists _, w'. split; [done|].
  destruct Hcur as [Hcur Hidx].
  split; [simpl; by rewrite Hlen|].
  assert (forall acq last n, acqs !! n = Some acq ->
            <[Some i := t0]> (lastApiCalls w) !! keyIndex acq = Some last ->
            exists t, recorded acq = Some t /\ last + RATE_LIMIT_DELAY <= t)
    as HB'.
  { intros acq last n Hn Hl. apply (HB n acq last Hn). by rewrite Hlast1. }
  assert (forall n, (((i + 1) `mod` length (API_KEYS out) + n)
                       `mod` length (API_KEYS out)
                     = (i + S n) `mod` length (API_KEYS out))%nat) as Hmod.
  { intros n. rewrite Nat.Div0.add_mod_idemp_l. f_equal. lia. }
  split; [|split].
  - intros [|n] acq; simpl.
    + intros [= <-]. simpl. rewrite Nat.add_0_r, Nat.mod_small by done.
      by rewrite Hk.
    + intros Hn. destruct (HA n acq Hn) as (Hkn & Hkey & Hrestk).
      by rewrite <- Hmod.
  - intros [|n] acq last; simpl.
    + intros [= <-]. simpl. intros Hl. exists t0. split; [done|].
      by apply Hspace.
    + intros Hn Hl.
      destruct (decide (keyIndex acq = Some i)) as [Heq|Hne].
      * destruct (HB' acq t0 n Hn) as (t & Ht & Hle).
        { rewrite Heq. apply lookup_insert_eq. }
        exists t. split; [done|]. rewrite Heq in Hl.
        specialize (Hspace last Hl). unfold RATE_LIMIT_DELAY in *. lia.
      * apply (HB' acq last n Hn).
        by rewrite lookup_insert_ne.
  - intros [|n] [|m] an am tn tm Hnm; simpl; try lia.
    + intros [= <-] Hm. simpl. intros Hkey [= <-] Htm.
      destruct (HB' am t0 m Hm) as (t & Ht & Hle).
      { rewrite <- Hkey. apply lookup_insert_eq. }
      congruence.
    + intros Hn Hm. apply (HC n m an am tn tm); [lia|done..].
Qed.

Lemma acquisitions_round_robin_spaced_witness :
  let out := flakyOutside in
  let w := initialWorld flakyOutside 1700000000000 in
  let gaps := [0; 0; 0; 0; 0; 0; 10; 100]%N in
  cursorAt out w 0 /\
  exists acqs w',
    acquisitions out gaps w = (Returned acqs, w') /\
    length acqs = length gaps /\
    (forall n acq, acqs !! n = Some acq ->
       keyIndex acq = Some ((0 + n) `mod` length (API_KEYS out))%nat /\
       key acq = API_KEYS out !! ((0 + n) `mod` length (API_KEYS out))%nat /\
       is_Some (key acq) /\ is_Some (recorded acq)) /\
    (forall n acq last, acqs !! n = Some acq ->
       lastApiCalls w !! keyIndex acq = Some last ->
       exists t, recorded acq = Some t /\ last + RATE_LIMIT_DELAY <= t) /\
    (forall n m an am tn tm, (n < m)%nat ->
       acqs !! n = Some an -> acqs !! m = Some am ->
       keyIndex an = keyIndex am ->
       recorded an = Some tn -> recorded am = Some tm ->
       tn + RATE_LIMIT_DELAY <= tm).
Proof.
  intros out w gaps.
  assert (cursorAt out w 0) as Hcur by (split; simpl; [done|lia]).
  split; [done|].
  by apply (acquisitions_round_robin_spaced out gaps w 0).
Defined.

(** Six acquisitions at once on five credentials: the first five are
    served at once, one credential each, and the sixth waits for the first
    credential to be 50 milliseconds old (the timer is 1 millisecond
    late). *)
Example six_acquisitions_at_once :
  (acquisitions flakyOutside [0; 0; 0; 0; 0; 0]%N
     (initialWorld flakyOutside 1700000000000)).1
  = Returned
      [ {| keyIndex := Some 0%nat; key := Some "key0";
           recorded := Some 1700000000000 |};
        {| keyIndex := Some 1%nat; key := Some "key1";
           recorded := Some 1700000000000 |};
        {| keyIndex := Some 2%nat; key := Some "key2";
           recorded := Some 1700000000000 |};
        {| keyIndex := Some 3%nat; key := Some "key3";
           recorded := Some 1700000000000 |};
        {| keyIndex := Some 4%nat; key := Some "key4";
           recorded := Some 1700000000000 |};
        {| keyIndex := Some 0%nat; key := Some "key0";
           recorded := Some 1700000000051 |} ].
Proof. by vm_compute. Qed.

(** Without a credential ([BASESCAN_API_KEY] is not set) the cursor is
    [NaN] after the first call; the time is then kept under that one key,
    and every request goes out without a key. *)
Example no_credentials :
  let out := {| API_KEYS := []; txlist := txlist flakyOutside;
                eth_blockNumber := eth_blockNumber flakyOutside;
                latency := fun _ => 0%N; late := fun _ => 0%N |} in
  (acquisitions out [0; 0; 10]%N (initialWorld out 1700000000000)).1
  = Returned
      [ {| keyIndex := Some 0%nat; key := None;
           recorded := Some 1700000000000 |};
        {| keyIndex := None; key := None; recorded := Some 1700000000000 |};
        {| keyIndex := None; key := None; recorded := Some 1700000000050 |} ].
Proof. by vm_compute. Qed.

(** ** Fetches that are started together *)

(** A timer that is awaited as soon as it is set is [delay]. *)
Lemma setTimeout_fired out ms w :
  (timer ← setTimeout ms; fired out timer) w = delay out ms w.
Proof.
  unfold mbind, M_bind, setTimeout, fired, delay. simpl.
  do 2 f_equal. pose proof (N2Z.is_nonneg (late out (timers w))). lia.
Qed.

(** A fetch that goes on as soon as it is suspended makes the acquisition
    [acquire]: the two halves are one run of [rateLimitedDelay] and
    [getNextApiKey]. *)
Lemma startFetch_resumeFetch out w :
  (s ← startFetch; resumeFetch out s) w = acquire out w.
Proof.
  pose proof (N2Z.is_nonneg (late out (timers w))) as Hlate.
  unfold acquire, startFetch, rateLimitedDelay, Date_now, gets.
  unfold mbind, M_bind. simpl.
  destruct (lastApiCalls w !! currentApiKeyIndex w) as [last|] eqn:Hlast;
    [destruct (clock w - last <? RATE_LIMIT_DELAY) eqn:Hlt|];
    simpl; rewrite lookup_insert_eq; [|done..].
  unfold mret, M_ret, mbind, M_bind, fired, Date_now, gets; simpl.
  replace (Z.max (clock w)
             (clock w + Z.max 0 (RATE_LIMIT_DELAY - (clock w - last))
              + Z.of_N (late out (timers w))))
    with (clock w + Z.max 0 (RATE_LIMIT_DELAY - (clock w - last))
          + Z.of_N (late out (timers w))) by lia.
  done.
Qed.

(** C9: one credential, three wallets.  The height is asked for at
    1700000000000 and told 120 milliseconds later; the three fetches start
    together.  The first finds the credential unused for 120 milliseconds,
    records the time and takes it.  The second and the third start before
    the first has gone on: both read the same index and the time the first
    has just recorded, both wait the 50 milliseconds that are missing, both
    record 1700000000170 and both take the credential at that time. *)
Theorem overlapping_fetches_share_credential :
  let run := batchAcquisitions oneKey ["0xaaa"; "0xbbb"; "0xccc"]
               (initialWorld oneKey 1700000000000) in
  let acqs :=
    [ {| keyIndex := Some 0%nat; key := Some "key0";
         recorded := Some 1700000000120 |};
      {| keyIndex := Some 0%nat; key := Some "key0";
         recorded := Some 1700000000170 |};
      {| keyIndex := Some 0%nat; key := Some "key0";
         recorded := Some 1700000000170 |} ] in
  run.1 = Returned acqs /\ ~ spaced acqs.
Proof.
  intros run acqs. split; [by vm_compute|].
  intros Hspaced.
  specialize (Hspaced 1%nat 2%nat _ _ 1700000000170 1700000000170
                ltac:(lia) eq_refl eq_refl eq_refl eq_refl eq_refl).
  unfold RATE_LIMIT_DELAY in Hspaced. lia.
Qed.

(** With five credentials and seven wallets the second and the seventh
    fetch take the third credential at the same time, and what the fetches
    record they record under the index of the second credential. *)
Example seven_fetches_five_credentials :
  (batchAcquisitions fiveKeys
     ["0xa1"; "0xa2"; "0xa3"; "0xa4"; "0xa5"; "0xa6"; "0xa7"]
     (initialWorld fiveKeys 1700000000000)).1
  = Returned
      [ {| keyIndex := Some 1%nat; key := Some "key1";
           recorded := Some 1700000000120 |};
        {| keyIndex := Some 1%nat; key := Some "key2";
           recorded := Some 1700000000170 |};
        {| keyIndex := Some 1%nat; key := Some "key3";
           recorded := Some 1700000000170 |};
        {| keyIndex := Some 1%nat; key := Some "key4";
           recorded := Some 1700000000170 |};
        {| keyIndex := Some 1%nat; key := Some "key0";
           recorded := Some 1700000000170 |};
        {| keyIndex := Some 1%nat; key := Some "key1";
           recorded := Some 1700000000170 |};
        {| keyIndex := Some 1%nat; key := Some "key2";
           recorded := Some 1700000000170 |} ].
Proof. by vm_compute. Qed.

(** * Properties of the rest of the program *)

(** ** The monitoring loop *)

Lemma classifyFetched_call currentBlock f (ws : gmap string WalletState) :
  f_transactions f <> [] ->
  classifyFetched currentBlock f ws
  = (let r := isSpamActivity (f_now f) (f_transactions f) (f_address f)
                currentBlock ws in
     (r.1,
      match type r.2, head (f_transactions f) with
      | Some t, Some latestTx =>
        if shouldNotify r.2 then [ {| alert_tx := latestTx; alert_type := t |} ]
        else []
      | _, _ => []
      end)).
Proof.
  unfold classifyFetched. destruct (f_transactions f) as [|tx l]; [done|].
  intros _. by destruct (isSpamActivity _ _ _ _ _).
Qed.

Lemma sentFor_mono fs fs' al n :
  (forall f, f ∈ fs -> f ∈ fs') -> sentFor fs al n -> sentFor fs' al n.
Proof. intros Hsub (Ht & f & Hf & Hrest). split; [done|]. exists f. auto. Qed.

(** A tick is the run of the classifier on its results that are not empty,
    and it sends one alert for each notification of that run. *)
Lemma classifyAll_monitor currentBlock batch (ws : gmap string WalletState) :
  currentBlock <> 0 ->
  (classifyAll currentBlock batch ws).1
  = (monitor (callsOfBatch currentBlock batch) ws).1 /\
  Forall2 (sentFor batch) (classifyAll currentBlock batch ws).2
          (monitor (callsOfBatch currentBlock batch) ws).2.
Proof.
  intros Hcb. unfold callsOfBatch.
  rewrite (proj2 (Z.eqb_neq _ _) Hcb).
  revert ws. induction batch as [|f batch IH]; intros ws; [by split|].
  cbn [classifyAll].
  destruct (decide (f_transactions f = [])) as [Hnil|Hne].
  - rewrite filter_cons_False by (by intros ?).
    unfold classifyFetched. rewrite Hnil.
    destruct (IH ws) as [IH1 IH2].
    destruct (classifyAll currentBlock batch ws) as [ws2 more]. simpl in *.
    split; [done|].
    eapply Forall2_impl; [done|]. intros al n. apply sentFor_mono.
    intros f' ?. by right.
  - rewrite filter_cons_True by done.
    rewrite classifyFetched_call by done. cbn [fmap list_fmap monitor].
    simpl at_time. simpl txs. simpl address. simpl height.
    destruct (isSpamActivity _ _ _ _ _) as [ws1 v] eqn:Hrun. simpl.
    destruct (IH ws1) as [IH1 IH2].
    destruct (classifyAll currentBlock batch ws1) as [ws2 more]. simpl in *.
    destruct (monitor _ ws1) as [ws2' ns]. simpl in *.
    split; [done|].
    apply Forall2_app.
    + unfold notificationOf. simpl.
      pose proof (recentTxs_length (f_transactions f)) as Hlen.
      destruct (type v) as [t|]; [|constructor].
      destruct (f_transactions f) as [|latestTx l] eqn:Htx; [done|].
      destruct (recentTxs (latestTx :: l)) as [|top w] eqn:Hw;
        [cbn [length] in Hlen; lia|].
      simpl. destruct (shouldNotify v); [|constructor].
      constructor; [|constructor]. split; [done|].
      exists f. split; [by left|]. rewrite Htx, Hw. done.
    + eapply Forall2_impl; [done|]. intros al n. apply sentFor_mono.
      intros f' ?. by right.
Qed.


Lemma monitoring_monitor ticks (ws : gmap string WalletState) :
  (monitoring ticks ws).1 = (monitor (callsOfTicks ticks) ws).1 /\
  Forall2 (sentFor (ticks ≫= snd)) (monitoring ticks ws).2
          (monitor (callsOfTicks ticks) ws).2.
Proof.
  revert ws. induction ticks as [|[currentBlock batch] ticks IH]; intros ws;
    [by split|].
  unfold callsOfTicks in *. cbn [monitoring mbind list_bind]. simpl fst. simpl snd.
  rewrite monitor_app. cbn zeta.
  unfold monitorWalletBatch.
  destruct (Z.eqb_spec currentBlock 0) as [->|Hcb].
  - unfold callsOfBatch at 1 2 3. simpl.
    destruct (IH ws) as [IH1 IH2].
    destruct (monitoring ticks ws) as [ws2 more]. simpl in *. split; [done|].
    eapply Forall2_impl; [done|]. intros al n. apply sentFor_mono.
    intros f ?. apply elem_of_app. by right.
  - destruct (classifyAll_monitor currentBlock batch ws Hcb) as [H1 H2].
    destruct (classifyAll currentBlock batch ws) as [ws1 alerts]. simpl in *.
    rewrite <- H1.
    destruct (IH ws1) as [IH1 IH2].
    destruct (monitoring ticks ws1) as [ws2 more]. simpl in *. split; [done|].
    apply Forall2_app.
    + eapply Forall2_impl; [done|]. intros al n. apply sentFor_mono.
      intros f ?. apply elem_of_app. by left.
    + eapply Forall2_impl; [done|]. intros al n. apply sentFor_mono.
      intros f ?. apply elem_of_app. by right.
Qed.

Lemma Forall2_sentFor_types fs alerts notes :
  Forall2 (sentFor fs) alerts notes ->
  alert_type <$> alerts = n_type <$> notes.
Proof.
  induction 1 as [|al n alerts notes [Ht _] _ IH]; [done|].
  rewrite !fmap_cons. by f_equal.
Qed.

(** X1: over any number of ticks, the alerts that show a contract come in
    turns, a start, then a stop, then a start, beginning with the one the
    stored state of the contract allows; the results of the fetches hold
    transactions sent to the address they were fetched for, as
    [fetchTransactions] returns them for a key of [NORMALIZED_WALLETS]. *)
Theorem alerts_alternate ticks (ws : gmap string WalletState) a :
  addressedTo (ticks ≫= snd) ->
  alternating (isSpamming (stateOf a ws))
    (alert_type <$> alertsFor a (monitoring ticks ws).2).
Proof.
  intros Haddr.
  destruct (monitoring_monitor ticks ws) as [_ Hsent].
  assert (Forall2 (sentFor (ticks ≫= snd))
            (alertsFor a (monitoring ticks ws).2)
            (filter (fun n => n_address n = a)
                    (monitor (callsOfTicks ticks) ws).2)) as Hfor.
  { apply Forall2_filter; [|done].
    intros al n (_ & f & Hf & Hhead & Hn & _). rewrite Hn.
    rewrite <- (Haddr f (alert_tx al) Hf); [done|].
    destruct (f_transactions f) as [|tx l]; [done|].
    injection Hhead as ->. by left. }
  rewrite (Forall2_sentFor_types _ _ _ Hfor).
  rewrite (proj2 (monitor_project a (callsOfTicks ticks) ws)).
  apply monitorOne_alternating.
Qed.

Lemma classifyAll_untouched currentBlock batch (ws : gmap string WalletState) a :
  (forall f, f ∈ batch -> f_address f = a -> f_transactions f = []) ->
  (classifyAll currentBlock batch ws).1 !! a = ws !! a.
Proof.
  revert ws. induction batch as [|f batch IH]; intros ws Hquiet; [done|].
  cbn [classifyAll].
  assert ((classifyFetched currentBlock f ws).1 !! a = ws !! a) as Hf.
  { unfold classifyFetched.
    destruct (f_transactions f) as [|tx l] eqn:Htx; [done|].
    rewrite isSpamActivity_classify. simpl.
    apply lookup_insert_ne. intros Heq.
    specialize (Hquiet f ltac:(by left) Heq). congruence. }
  destruct (classifyFetched currentBlock f ws) as [ws1 alerts]. simpl in Hf.
  specialize (IH ws1 ltac:(intros f' ?; apply Hquiet; by right)).
  destruct (classifyAll currentBlock batch ws1) as [ws2 more]. simpl in *.
  congruence.
Qed.

(** X2: an address whose fetches return nothing (as they do when they
    fail) in every tick that is not skipped keeps the entry it had in
    [walletStates], or stays without one. *)
Theorem quiet_address_untouched ticks (ws : gmap string WalletState) a :
  (forall currentBlock batch f,
      (currentBlock, batch) ∈ ticks -> currentBlock <> 0 -> f ∈ batch ->
      f_address f = a -> f_transactions f = []) ->
  (monitoring ticks ws).1 !! a = ws !! a.
Proof.
  revert ws. induction ticks as [|[currentBlock batch] ticks IH];
    intros ws Hquiet; [done|].
  cbn [monitoring].
  assert ((monitorWalletBatch currentBlock batch ws).1 !! a = ws !! a) as Ht.
  { unfold monitorWalletBatch.
    destruct (Z.eqb_spec currentBlock 0) as [->|Hcb]; [done|].
    apply classifyAll_untouched. intros f Hf.
    apply (Hquiet currentBlock batch f); [by left|done..]. }
  destruct (monitorWalletBatch currentBlock batch ws) as [ws1 alerts].
  simpl in Ht.
  specialize (IH ws1 ltac:(intros cb b f ?; apply Hquiet; by right)).
  destruct (monitoring ticks ws1) as [ws2 more]. simpl in *. congruence.
Qed.

Lemma classifyFetched_alert currentBlock f (ws : gmap string WalletState) al :
  newestFirst (f_transactions f) ->
  al ∈ (classifyFetched currentBlock f ws).2 ->
  head (f_transactions f) = Some (alert_tx al) /\
  (classifyFetched currentBlock f ws).1 !! f_address f
  = Some (recordedBy al (f_now f)).
Proof.
  intros Hnew. unfold classifyFetched.
  destruct (f_transactions f) as [|latestTx l] eqn:Htx;
    [by intros ?%elem_of_nil|].
  rewrite isSpamActivity_classify. cbn [fst snd].
  assert (head (recentTxs (latestTx :: l)) = Some (summarize latestTx)) as Htop.
  { by rewrite (recentTxs_newestFirst _ Hnew). }
  pose proof (classify_cases (f_now f) (recentTxs (latestTx :: l)) currentBlock
                (stateOf (f_address f) ws)) as Hc.
  cbv zeta in Hc. rewrite Htop in Hc.
  destruct (classify _ _ _ _) as [s1 v]. cbn [fst snd] in *.
  destruct Hc as [(-> & _)|(top & [= <-] & _ & _ & [(-> & _ & ->)|(-> & _ & ->)])];
    simpl; [by intros ?%elem_of_nil|..];
    intros ->%list_elem_of_singleton; simpl;
    (split; [done|]); by rewrite lookup_insert_eq.
Qed.

(** X3: within a tick over distinct addresses whose results come newest
    first, every alert shows the first transaction of a result, and what the tick
    leaves stored for the address of that result is this very transaction:
    its hash as [lastNotifiedTxHash], its block as [lastTxBlock], the time
    of the classification, and [isSpamming] as the alert says. *)
Theorem alert_shows_recorded currentBlock batch (ws : gmap string WalletState) al :
  NoDup (f_address <$> batch) ->
  (forall f, f ∈ batch -> newestFirst (f_transactions f)) ->
  al ∈ (monitorWalletBatch currentBlock batch ws).2 ->
  exists f, f ∈ batch /\
    head (f_transactions f) = Some (alert_tx al) /\
    (monitorWalletBatch currentBlock batch ws).1 !! f_address f
    = Some (recordedBy al (f_now f)).
Proof.
  unfold monitorWalletBatch.
  destruct (currentBlock =? 0); [by intros _ _ ?%elem_of_nil|].
  revert ws. induction batch as [|f batch IH]; intros ws Hnd Hnew;
    [by intros ?%elem_of_nil|].
  cbn [classifyAll]. rewrite fmap_cons in Hnd.
  apply NoDup_cons in Hnd as [Hf Hnd].
  pose proof (classifyFetched_alert currentBlock f ws al
                (Hnew f ltac:(by left))) as Hhere.
  destruct (classifyFetched currentBlock f ws) as [ws1 alerts]. simpl in Hhere.
  pose proof (classifyAll_untouched currentBlock batch ws1 (f_address f)) as Hkeep.
  specialize (IH ws1 Hnd ltac:(intros f' ?; apply Hnew; by right)).
  destruct (classifyAll currentBlock batch ws1) as [ws2 more]. simpl in *.
  intros [Hal|Hal]%elem_of_app.
  - destruct (Hhere Hal) as [Hhead Hstate]. exists f.
    split; [by left|]. split; [done|]. rewrite Hkeep; [done|].
    intros f' Hf' Heq. destruct Hf. rewrite <- Heq.
    by apply list_elem_of_fmap_2.
  - destruct (IH Hal) as (f' & Hf' & Hrest). exists f'. split; [by right|done].
Qed.

Lemma lower_ascii_idemp c : lower_ascii (lower_ascii c) = lower_ascii c.
Proof.
  unfold lower_ascii.
  destruct ((65 <=? Ascii.nat_of_ascii c) && (Ascii.nat_of_ascii c <=? 90))%nat
    eqn:Hup; [|by rewrite Hup].
  apply andb_true_iff in Hup as [H1%Nat.leb_le H2%Nat.leb_le].
  rewrite Ascii.nat_ascii_embedding by lia.
  destruct (Nat.leb_spec (Ascii.nat_of_ascii c + 32) 90); [lia|].
  by rewrite andb_false_r.
Qed.

Lemma toLowerCase_idemp s : toLowerCase (toLowerCase s) = toLowerCase s.
Proof.
  induction s as [|c s IH]; simpl; [done|]. by rewrite lower_ascii_idemp, IH.
Qed.

(** X4: the name an alert shows is the name registered for the address that
    was fetched, never ["Unknown Contract"]: the fetch keeps the
    transactions sent to the address, and the alert looks the recipient up
    in lower case. *)
Theorem alert_names_monitored_contract (normalized : gmap string string)
    a name status result tx :
  normalized !! toLowerCase a = Some name -> name <> "" ->
  tx ∈ rowsFor a status result ->
  contractName normalized tx = name.
Proof.
  intros Hname Hne Hin. unfold rowsFor in Hin.
  destruct result as [result|]; [|by apply elem_of_nil in Hin].
  destruct (String.eqb status "1"); [|by apply elem_of_nil in Hin].
  apply list_elem_of_filter in Hin as [Hto _].
  unfold contractName. rewrite Hto, Hname.
  by destruct (String.eqb_spec name "").
Qed.

(** ** The height of the chain and the bursting state *)

Lemma classify_bursting now recent currentBlock state :
  let state' := (classify now recent currentBlock state).1 in
  isSpamming state' = true ->
  state' = state \/
  exists top, head recent = Some top /\ state' = afterTransition true top now.
Proof.
  unfold classify. destruct recent as [|top recent]; simpl; [by left|].
  destruct (String.eqb _ _); [by left|].
  destruct (_ <? 30); [by left|].
  destruct (isSpamming state) eqn:Hspam.
  - destruct (20 <? _); simpl; [done|by left].
  - destruct recent as [|t1 [|t2 recent]]; simpl; try done.
    match goal with |- context [if ?b then _ else _] => destruct b end;
      simpl; [|done].
    intros _. right. by exists top.
Qed.

Lemma monitorOne_bursting calls : forall state,
  let state' := (monitorOne calls state).1 in
  isSpamming state' = true ->
  state' = state \/
  exists c top, c ∈ calls /\ head (recentTxs (txs c)) = Some top /\
    state' = afterTransition true top (at_time c).
Proof.
  induction calls as [|c calls IH]; intros state; [by left|].
  cbn [monitorOne].
  pose proof (classify_bursting (at_time c) (recentTxs (txs c)) (height c) state)
    as Hc.
  destruct (classify _ _ _ _) as [s1 v]. cbn [fst] in Hc.
  specialize (IH s1). destruct (monitorOne calls s1) as [s2 ns].
  cbn [fst] in *. intros Hspam.
  destruct (IH Hspam) as [->|(c' & top & Hin & Htop & ->)].
  - destruct (Hc Hspam) as [->|(top & Htop & ->)]; [by left|].
    right. exists c, top. split; [by left|done].
  - right. exists c', top. split; [by right|done].
Qed.

(** X7: while an address is bursting nothing of its state moves: the state
    of a bursting address is the one the run found, or the one a start
    transition of the run wrote, with the block, the hash and the time of
    that start.  The blocks the status sweep counts for a bursting address
    are counted from there. *)
Theorem bursting_state_is_start_state calls (ws : gmap string WalletState) a :
  isSpamming (stateOf a (monitor calls ws).1) = true ->
  stateOf a (monitor calls ws).1 = stateOf a ws \/
  exists c top,
    c ∈ calls /\ address c = a /\ head (recentTxs (txs c)) = Some top /\
    stateOf a (monitor calls ws).1 = afterTransition true top (at_time c).
Proof.
  rewrite (proj1 (monitor_project a calls ws)). intros Hspam.
  destruct (monitorOne_bursting (callsFor a calls) (stateOf a ws) Hspam)
    as [?|(c & top & Hin & Htop & Hst)]; [by left|].
  right. exists c, top.
  apply list_elem_of_filter in Hin as [Ha Hin]. done.
Qed.

(** [k] failed attempts from [retryCount] on, then a height. *)
Lemma getCurrentBlockNumber_fuel_after out k : forall fuel retryCount w n,
  (retryCount + k <= MAX_RETRIES)%nat ->
  (MAX_RETRIES - retryCount <= fuel)%nat ->
  (forall i, (i < k)%nat -> heightFails (eth_blockNumber out (requests w + i))) ->
  eth_blockNumber out (requests w + k) = HeightData (Some n) ->
  exists w' new,
    getCurrentBlockNumber_fuel out fuel retryCount w = (Returned n, w') /\
    follows w w' new /\ requestCount new = S k /\
    RETRY_DELAY * (Z.of_nat k * Z.of_nat retryCount + triangle k) <= slept new.
Proof.
  induction k as [|k IH]; intros fuel retryCount w n Hk Hfuel Hfail Hok;
    destruct (heightAttempt_spec out w) as (w1 & new1 & Hf1 & Hn1 & Hrun1);
    pose proof (slept_nonneg new1) as Hs1.
  - rewrite Nat.add_0_r in Hok. rewrite Hok in Hrun1.
    exists w1, new1. split.
    { destruct fuel; cbn [getCurrentBlockNumber_fuel]; unfold try_catch;
        by rewrite Hrun1. }
    split; [done|]. split; [done|]. simpl. lia.
  - pose proof (Hfail O ltac:(lia)) as Hfail0. rewrite Nat.add_0_r in Hfail0.
    assert (exists e, heightAttempt out w = (Thrown e, w1)) as [e Hthrown].
    { destruct (eth_blockNumber out (requests w)) as [|[m|]]; [by eexists|done|by eexists]. }
    destruct fuel as [|fuel]; [unfold MAX_RETRIES in *; lia|].
    cbn [getCurrentBlockNumber_fuel]. unfold try_catch. rewrite Hthrown.
    rewrite (proj2 (Nat.ltb_lt retryCount MAX_RETRIES)) by lia.
    destruct (delay_follows out (RETRY_DELAY * (Z.of_nat retryCount + 1)) w1)
      as (w2 & Hrun2 & Hf2).
    unfold mbind, M_bind. rewrite Hrun2.
    assert (requests w2 = S (requests w)) as Hreq.
    { destruct Hf1 as (_ & Hr1 & _). destruct Hf2 as (_ & Hr2 & _).
      simpl in Hr2. lia. }
    destruct (IH fuel (retryCount + 1)%nat w2 n)
      as (w3 & new3 & Hrun3 & Hf3 & Hn3 & Hs3); [lia|lia| | |].
    { intros i Hi. rewrite Hreq.
      replace (S (requests w) + i)%nat with (requests w + S i)%nat by lia.
      apply Hfail. lia. }
    { rewrite Hreq. by replace (S (requests w) + k)%nat
        with (requests w + S k)%nat by lia. }
    rewrite Hrun3. eexists w3, _. split; [done|].
    split; [eapply follows_trans; [|apply Hf3]; by eapply follows_trans|].
    rewrite !slept_app, !requestCount_app. simpl.
    assert (0 <= Z.of_nat retryCount) by lia.
    split; [lia|]. unfold RETRY_DELAY in *. lia.
Qed.

(** X6: [getCurrentBlockNumber] returns the height the API gives after up
    to [MAX_RETRIES] failed attempts, rejected requests and replies without a
    result alike, with one more request than failures and the delays of the
    retries behind it. *)
Theorem getCurrentBlockNumber_recovers out w k n :
  (k <= MAX_RETRIES)%nat ->
  (forall i, (i < k)%nat -> heightFails (eth_blockNumber out (requests w + i))) ->
  eth_blockNumber out (requests w + k) = HeightData (Some n) ->
  exists w' new,
    getCurrentBlockNumber out 0 w = (Returned n, w') /\
    follows w w' new /\ requestCount new = S k /\
    RETRY_DELAY * triangle k <= slept new.
Proof.
  intros Hk Hfail Hok. unfold getCurrentBlockNumber.
  destruct (getCurrentBlockNumber_fuel_after out k (MAX_RETRIES - 0) O w n)
    as (w' & new & Hrun & Hf & Hn & Hs); [lia|lia|done|done|].
  exists w', new. split; [done|]. split; [done|]. split; [done|]. lia.
Qed.

Lemma lastKnownEstimate_positive (ws : gmap string WalletState) :
  0 < lastKnownEstimate ws.
Proof.
  unfold lastKnownEstimate. destruct (Math_max _) as [b|]; [|done].
  destruct (Z.ltb_spec 0 b); [done|lia].
Qed.

(** X5: a tick is not skipped for want of a height: when every attempt of
    [getCurrentBlockNumber] fails, what it returns is not the 0 that ends
    [monitorWalletBatch], and the results are classified with it. *)
Theorem tick_runs_without_height out w :
  (forall i, (i <= MAX_RETRIES)%nat ->
             heightFails (eth_blockNumber out (requests w + i))) ->
  exists v w',
    getCurrentBlockNumber out 0 w = (Returned v, w') /\ 0 < v /\
    forall batch (ws : gmap string WalletState),
      monitorWalletBatch v batch ws = classifyAll v batch ws.
Proof.
  intros Hfail. unfold getCurrentBlockNumber.
  destruct (getCurrentBlockNumber_fuel_exhausted out (MAX_RETRIES - 0) O w)
    as (w' & new & Hrun & _); [lia|lia|done|].
  pose proof (lastKnownEstimate_positive (walletStates w)) as Hpos.
  exists (lastKnownEstimate (walletStates w)), w'.
  split; [done|]. split; [done|]. intros batch ws.
  unfold monitorWalletBatch.
  by destruct (Z.eqb_spec (lastKnownEstimate (walletStates w)) 0); [lia|].
Qed.

(** ** The status command *)

Lemma endsStarted_cons before t kinds :
  endsStarted before (t :: kinds)
  = endsStarted (bool_decide (t = start)) kinds.
Proof.
  unfold endsStarted. destruct kinds as [|t' kinds]; [by destruct t|].
  rewrite last_cons_cons.
  destruct (last (t' :: kinds)) as [k|] eqn:Hlast; [done|].
  by apply last_None in Hlast.
Qed.

Lemma monitorOne_endsStarted calls : forall state,
  isSpamming (monitorOne calls state).1
  = endsStarted (isSpamming state) (n_type <$> (monitorOne calls state).2).
Proof.
  induction calls as [|c calls IH]; intros state; [done|].
  cbn [monitorOne].
  pose proof (classify_cases (at_time c) (recentTxs (txs c)) (height c) state)
    as Hc.
  destruct (classify _ _ _ _) as [s1 v]. cbn [fst snd] in Hc.
  specialize (IH s1). destruct (monitorOne calls s1) as [s2 ns].
  cbn [fst snd] in *. rewrite IH.
  destruct Hc as [(-> & Hs & _)|(top & Htop & _ & _ & [(-> & _ & ->)|(-> & _ & ->)])].
  - rewrite notificationOf_noChange. simpl. by rewrite Hs.
  - rewrite (notificationOf_notify _ _ top Htop).
    change ([?x] ++ ns) with (x :: ns). rewrite fmap_cons.
    by rewrite endsStarted_cons.
  - rewrite (notificationOf_notify _ _ top Htop).
    change ([?x] ++ ns) with (x :: ns). rewrite fmap_cons.
    by rewrite endsStarted_cons.
Qed.

(** X8: the status command lists a wallet as active exactly when the last
    notification of the classifier for it was a start (and, when the run
    notified nothing for it, when it was listed as active before). *)
Theorem listed_active_iff_last_start calls (ws : gmap string WalletState) address :
  listedActive (monitor calls ws).1 address
  = endsStarted (listedActive ws address)
      (n_type <$> filter (fun n => n_address n = toLowerCase address)
                         (monitor calls ws).2).
Proof.
  assert (forall ws' : gmap string WalletState,
            listedActive ws' address
            = isSpamming (stateOf (toLowerCase address) ws')) as Hlisted.
  { intros ws'. unfold listedActive, stateOf.
    by destruct (ws' !! toLowerCase address). }
  rewrite !Hlisted.
  destruct (monitor_project (toLowerCase address) calls ws) as [-> ->].
  apply monitorOne_endsStarted.
Qed.

(** ** The chunks of the status command *)

Section ChunkProperties.

Context {char : Type}.
Variable newline : char.

Lemma join_snoc (items : list (list char)) item :
  items <> [] ->
  join newline (items ++ [item]) = join newline items ++ newline :: newline :: item.
Proof.
  destruct items as [|x items]; [done|]. intros _. simpl.
  rewrite fmap_app, concat_app. simpl. by rewrite app_nil_r, app_assoc.
Qed.

(** The state of [splitIntoChunks] is the state with arrays, joined. *)
Lemma addItem_items maxLength st groups current len item :
  chunks st = join newline <$> groups ->
  currentChunk st = current -> currentLength st = len ->
  let st' := addItem newline maxLength st item in
  let r := addItemTo maxLength (groups, current, len) item in
  chunks st' = join newline <$> r.1.1 /\
  currentChunk st' = r.1.2 /\ currentLength st' = r.2.
Proof.
  intros Hc Hcur Hlen. unfold addItem, addItemTo. rewrite Hc, Hcur, Hlen.
  destruct (maxLength <? len + length item)%nat; simpl; [|done].
  by rewrite fmap_app.
Qed.

Lemma foldl_addItem arr maxLength : forall st groups current len,
  chunks st = join newline <$> groups ->
  currentChunk st = current -> currentLength st = len ->
  let st' := foldl (addItem newline maxLength) st arr in
  let r := foldl (addItemTo maxLength) (groups, current, len) arr in
  chunks st' = join newline <$> r.1.1 /\
  currentChunk st' = r.1.2 /\ currentLength st' = r.2.
Proof.
  induction arr as [|item arr IH]; intros st groups current len Hc Hcur Hlen;
    [done|].
  cbn [foldl].
  destruct (addItem_items maxLength st groups current len item Hc Hcur Hlen)
    as (H1 & H2 & H3).
  destruct (addItemTo maxLength (groups, current, len) item)
    as [[groups1 current1] len1].
  by apply IH.
Qed.

Lemma splitIntoChunks_items arr maxLength :
  splitIntoChunks newline arr maxLength
  = join newline <$> chunkItems arr maxLength.
Proof.
  unfold splitIntoChunks, chunkItems.
  pose proof (foldl_addItem arr maxLength
                {| chunks := []; currentChunk := []; currentLength := 0 |}
                [] [] O eq_refl eq_refl eq_refl) as H. cbv zeta in H.
  destruct (foldl (addItemTo maxLength) _ arr) as [[groups current] len].
  destruct H as (-> & -> & _). cbn [fst snd].
  destruct (0 <? length current)%nat; [|done].
  by rewrite fmap_app.
Qed.

Lemma join_singleton (item : list char) : join newline [item] = item.
Proof. simpl. by rewrite app_nil_r. Qed.

Lemma join_snoc_length (items : list (list char)) item :
  items <> [] ->
  length (join newline (items ++ [item]))
  = (length (join newline items) + 2 + length item)%nat.
Proof.
  intros Hne. rewrite join_snoc by done. rewrite length_app. simpl. lia.
Qed.

Lemma chunking_addItemTo maxLength seen st item :
  chunking newline maxLength seen st ->
  chunking newline maxLength (seen ++ [item]) (addItemTo maxLength st item).
Proof.
  destruct st as [[groups current] len].
  intros (Hall & Hcur & Hzero & Hlen & Htwo & Hbound & Hempty & Hfirst).
  unfold addItemTo.
  destruct (Nat.ltb_spec maxLength (len + length item)) as [Hover|Hfits];
    unfold chunking.
  - (* the item opens a new chunk *)
    split; [by rewrite concat_app; simpl; rewrite app_nil_r, Hall|].
    split; [done|]. split; [done|].
    split; [intros _; rewrite join_singleton; lia|].
    split; [simpl; lia|].
    split; [|split].
    + intros g [Hg|Hg%list_elem_of_singleton]%elem_of_app; [by apply Hbound|].
      subst g.
      destruct (Nat.le_gt_cases (length current) 1); [by left|right].
      apply Htwo. lia.
    + intros g [Hg|Hg%list_elem_of_singleton]%elem_of_app Hnil.
      * destruct (Hempty g Hg Hnil) as (x & rest & -> & ?).
        by exists x, (rest ++ [item]).
      * subst g. subst current. destruct seen as [|x seen]; [|by destruct Hcur].
        exists item, []. split; [done|]. specialize (Hzero eq_refl). lia.
    + intros (x & rest & Hseen & Hx). apply elem_of_app.
      destruct seen as [|y seen].
      * right. apply app_eq_nil in Hall as [_ ->].
        by apply list_elem_of_singleton.
      * left. apply Hfirst. injection Hseen as <- _. by exists y, seen.
  - (* the item joins the current chunk *)
    split; [by rewrite <- Hall, app_assoc|].
    split; [intros _; by destruct current|].
    split; [intros ?; by destruct current|].
    assert (current <> [] ->
            (length (join newline (current ++ [item]))
             <= len + length item + 2
             <= length (join newline (current ++ [item])) + 2)%nat) as Hgrow.
    { intros Hne. rewrite join_snoc_length by done.
      specialize (Hlen Hne). lia. }
    split; [|split; [|split; [done|split]]].
    + intros _. destruct current as [|c current].
      * rewrite (Hzero eq_refl). simpl. rewrite app_nil_r. lia.
      * by apply Hgrow.
    + rewrite length_app. simpl. intros Hlong.
      destruct current as [|c current]; [simpl in Hlong; lia|].
      specialize (Hgrow ltac:(done)). lia.
    + intros g Hg Hnil. destruct (Hempty g Hg Hnil) as (x & rest & -> & ?).
      by exists x, (rest ++ [item]).
    + intros (x & rest & Hseen & Hx). apply Hfirst.
      destruct seen as [|y seen].
      * injection Hseen as <- <-. apply app_eq_nil in Hall as [_ ->].
        rewrite (Hzero eq_refl) in Hfits. lia.
      * injection Hseen as <- _. by exists y, seen.
Qed.

Lemma chunking_foldl maxLength arr : forall seen st,
  chunking newline maxLength seen st ->
  chunking newline maxLength (seen ++ arr) (foldl (addItemTo maxLength) st arr).
Proof.
  induction arr as [|item arr IH]; intros seen st Hst;
    [by rewrite app_nil_r|].
  cbn [foldl]. replace (seen ++ item :: arr) with ((seen ++ [item]) ++ arr)
    by (by rewrite <- app_assoc).
  by apply IH, chunking_addItemTo.
Qed.

(** The chunks as arrays: nothing lost, the bound, and the empty chunk. *)
Lemma chunkItems_spec arr maxLength :
  concat (chunkItems arr maxLength) = arr /\
  (forall g, g ∈ chunkItems arr maxLength ->
     (length g <= 1)%nat \/ (length (join newline g) <= maxLength + 2)%nat) /\
  ([] ∈ chunkItems arr maxLength <->
   exists item rest, arr = item :: rest /\ (maxLength < length item)%nat).
Proof.
  unfold chunkItems.
  pose proof (chunking_foldl maxLength arr [] ([], [], O)) as Hinv.
  destruct (foldl (addItemTo maxLength) _ arr) as [[groups current] len].
  destruct Hinv as (Hall & Hcur & Hzero & Hlen & Htwo & Hbound & Hempty & Hfirst).
  { unfold chunking. repeat split; try done; try (simpl; lia);
      try (by intros ? ?%elem_of_nil).
    by intros (? & ? & ? & ?). }
  simpl in *.
  destruct current as [|c current]; simpl.
  - rewrite app_nil_r in Hall. split; [done|]. split; [done|].
    split; [|done]. intros Hin. by apply (Hempty [] Hin).
  - split; [by rewrite concat_app; simpl; rewrite app_nil_r|].
    split.
    + intros g [Hg|Hg%list_elem_of_singleton]%elem_of_app; [by apply Hbound|].
      subst g.
      destruct current as [|c' current]; [left; simpl; lia|right].
      apply Htwo. simpl. lia.
    + split.
      * intros [Hin|Hin%list_elem_of_singleton]%elem_of_app; [|done].
        by apply (Hempty [] Hin).
      * intros Hover. apply elem_of_app. left. by apply Hfirst.
Qed.

End ChunkProperties.

(** X9: [splitIntoChunks] loses nothing: the chunks are the items, in their
    order, cut into consecutive groups and joined with two newlines. *)
Theorem splitIntoChunks_keeps_items {char : Type} (newline : char)
    (arr : list (list char)) (maxLength : nat) :
  exists groups,
    splitIntoChunks newline arr maxLength = join newline <$> groups /\
    concat groups = arr.
Proof.
  exists (chunkItems arr maxLength). split.
  - apply splitIntoChunks_items.
  - apply (chunkItems_spec newline).
Qed.

(** X10: a chunk is at most [maxLength + 2] long, unless it is one item on
    its own. *)
Theorem splitIntoChunks_bound {char : Type} (newline : char)
    (arr : list (list char)) (maxLength : nat) chunk :
  chunk ∈ splitIntoChunks newline arr maxLength ->
  (length chunk <= maxLength + 2)%nat \/ chunk ∈ arr.
Proof.
  rewrite splitIntoChunks_items. intros (g & -> & Hg)%list_elem_of_fmap.
  destruct (chunkItems_spec newline arr maxLength) as (Hall & Hbound & _).
  destruct (Hbound g Hg) as [Hshort|Hlen]; [|by left].
  destruct g as [|item [|item' g]]; [left; simpl; lia| |simpl in Hshort; lia].
  right. rewrite join_singleton, <- Hall.
  apply list_elem_of_In, in_concat. exists [item].
  split; apply list_elem_of_In; [done|by left].
Qed.

(** X11: with items that are not empty, the chunks contain an empty one
    exactly when the first item is longer than [maxLength]; the status then shows
    'None' for it. *)
Theorem splitIntoChunks_empty_chunk {char : Type} (newline : char)
    (arr : list (list char)) (maxLength : nat) :
  (forall item, item ∈ arr -> item <> []) ->
  ([] ∈ splitIntoChunks newline arr maxLength <->
   exists item rest, arr = item :: rest /\ (maxLength < length item)%nat).
Proof.
  intros Hne. rewrite splitIntoChunks_items.
  destruct (chunkItems_spec newline arr maxLength) as (Hall & _ & Hempty).
  rewrite <- Hempty. split.
  - intros (g & Hg & Hin)%list_elem_of_fmap.
    destruct g as [|item g]; [done|]. exfalso.
    apply (Hne item).
    + rewrite <- Hall. apply list_elem_of_In, in_concat. exists (item :: g).
      split; apply list_elem_of_In; [done|by left].
    + simpl in Hg. symmetry in Hg. by apply app_eq_nil in Hg as [? _].
  - intros Hin. apply list_elem_of_fmap. by exists [].
Qed.

(** ** The names of the wallets *)

Lemma append_String c (s t : string) : String c s +:+ t = String c (s +:+ t).
Proof. reflexivity. Qed.

Lemma append_empty (t : string) : "" +:+ t = t.
Proof. reflexivity. Qed.

Lemma splitAtParen_noParen p :
  noParen p = true -> splitAtParen p = (p, None).
Proof.
  induction p as [|c p IH]; simpl; [done|].
  intros [Hc Hp]%andb_true_iff. apply negb_true_iff in Hc. rewrite Hc.
  by rewrite (IH Hp).
Qed.

Lemma splitAtParen_app p rest :
  noParen p = true -> splitAtParen (p +:+ String "(" rest) = (p, Some rest).
Proof.
  induction p as [|c p IH]; [done|].
  rewrite append_String. cbn [splitAtParen noParen].
  intros [Hc Hp]%andb_true_iff. apply negb_true_iff in Hc. rewrite Hc.
  by rewrite (IH Hp).
Qed.

Lemma beforeLastParen_app d : beforeLastParen (d +:+ ")") = Some d.
Proof.
  induction d as [|c d IH]; [done|].
  destruct d as [|c' d]; [done|].
  rewrite append_String. rewrite append_String in IH.
  rewrite append_String. cbn [beforeLastParen] in *. by rewrite IH.
Qed.

Lemma parenthesized_oneLine s p d : parenthesized s = Some (p, d) -> oneLine d = true.
Proof.
  unfold parenthesized. destruct (splitAtParen s) as [p' [rest|]]; [|done].
  destruct (String.eqb p' ""); [done|].
  destruct (beforeLastParen rest) as [d'|]; [|done].
  destruct (oneLine d') eqn:Hd; [|done]. by intros [= _ <-].
Qed.

Lemma noParen_app p q : noParen (p +:+ q) = noParen p && noParen q.
Proof.
  induction p as [|c p IH]; [done|].
  rewrite append_String. cbn [noParen]. by rewrite IH, andb_assoc.
Qed.

Lemma app_assoc_string (a b c : string) : (a +:+ b) +:+ c = a +:+ (b +:+ c).
Proof. induction a as [|x a IH]; [done|]. by rewrite !append_String, IH. Qed.

(** A formatted name with a description is read back as the short address
    with the blank that follows it, and the description. *)
Lemma parenthesized_format address d :
  noParen (String.substring 0 7 address) = true ->
  d <> "" -> oneLine d = true ->
  parenthesized (formatWalletName address d)
  = Some (String.substring 0 7 address +:+ " ", d).
Proof.
  intros Hshort Hd Hline. unfold formatWalletName, parenthesized.
  destruct (String.eqb_spec d ""); [done|].
  replace (String.substring 0 7 address +:+ " (" +:+ d +:+ ")")
    with ((String.substring 0 7 address +:+ " ") +:+ String "(" (d +:+ ")"))
    by (by rewrite app_assoc_string).
  rewrite splitAtParen_app by (by rewrite noParen_app, Hshort).
  destruct (String.eqb_spec (String.substring 0 7 address +:+ " ") "") as [He|_].
  { by destruct (String.substring 0 7 address). }
  by rewrite beforeLastParen_app, Hline.
Qed.

Lemma parenthesized_short address :
  noParen (String.substring 0 7 address) = true ->
  parenthesized (formatWalletName address "") = None.
Proof.
  intros Hshort. unfold formatWalletName, parenthesized. simpl.
  by rewrite splitAtParen_noParen.
Qed.

Lemma descriptionOf_format address d :
  noParen (String.substring 0 7 address) = true ->
  oneLine d = true ->
  descriptionOf (formatWalletName address d) = d.
Proof.
  intros Hshort Hline. unfold descriptionOf.
  destruct (String.eqb_spec d "") as [->|Hd].
  - by rewrite parenthesized_short.
  - by rewrite parenthesized_format.
Qed.

Lemma descriptionOf_oneLine fullName : oneLine (descriptionOf fullName) = true.
Proof.
  unfold descriptionOf.
  destruct (parenthesized fullName) as [[p d]|] eqn:Hp; [|done].
  by apply (parenthesized_oneLine fullName p).
Qed.

(** X12: the description put into a name by [formatWalletName] is the one
    [updateExistingWallets] and the status command read back from it, for
    a description on one line and an address without parenthesis in its
    first 7 characters; the status command shows the short address with a
    blank behind it when there is a description. *)
Theorem formatWalletName_read_back address d :
  noParen (String.substring 0 7 address) = true ->
  oneLine d = true ->
  descriptionOf (formatWalletName address d) = d /\
  statusName (formatWalletName address d)
  = (if String.eqb d "" then String.substring 0 7 address
     else String.substring 0 7 address +:+ " ", d).
Proof.
  intros Hshort Hline. split; [by apply descriptionOf_format|].
  unfold statusName.
  destruct (String.eqb_spec d "") as [->|Hd].
  - rewrite parenthesized_short by done.
    unfold formatWalletName. simpl. by rewrite splitAtParen_noParen.
  - rewrite parenthesized_format by done.
    unfold formatWalletName. destruct (String.eqb_spec d ""); [done|].
    replace (String.substring 0 7 address +:+ " (" +:+ d +:+ ")")
      with ((String.substring 0 7 address +:+ " ") +:+ String "(" (d +:+ ")"))
      by (by rewrite app_assoc_string).
    by rewrite splitAtParen_app by (by rewrite noParen_app, Hshort).
Qed.

(** X13: [updateExistingWallets] settles after one run: the names it writes
    are names it leaves as they are (for an address without parenthesis in
    its first 7 characters). *)
Theorem updatedName_idempotent address fullName :
  noParen (String.substring 0 7 address) = true ->
  updatedName address (updatedName address fullName)
  = updatedName address fullName.
Proof.
  intros Hshort. unfold updatedName.
  by rewrite descriptionOf_format by (done || apply descriptionOf_oneLine).
Qed.

(** ** The registry of the wallets *)

Lemma normalize_notin entries : forall (acc : gmap string string) k,
  k ∉ (fun e : string * string => toLowerCase e.1) <$> entries ->
  foldl (fun acc entry => <[toLowerCase entry.1 := entry.2]> acc) acc entries
    !! k = acc !! k.
Proof.
  induction entries as [|e entries IH]; intros acc k Hk; [done|].
  cbn [foldl]. rewrite fmap_cons in Hk. apply not_elem_of_cons in Hk as [Hne Hk].
  rewrite IH by done. by apply lookup_insert_ne.
Qed.

Lemma normalize_lookup entries : forall (acc : gmap string string) a name,
  NoDup ((fun e : string * string => toLowerCase e.1) <$> entries) ->
  (a, name) ∈ entries ->
  foldl (fun acc entry => <[toLowerCase entry.1 := entry.2]> acc) acc entries
    !! toLowerCase a = Some name.
Proof.
  induction entries as [|e entries IH]; intros acc a name Hnd Hin;
    [by apply elem_of_nil in Hin|].
  rewrite fmap_cons in Hnd. apply NoDup_cons in Hnd as [Hfresh Hnd].
  cbn [foldl]. apply elem_of_cons in Hin as [<-|Hin].
  - rewrite normalize_notin by done. apply lookup_insert_eq.
  - by apply IH.
Qed.

(** X15: as the program starts, every wallet of the file that has a name is
    found under the lower case of its address, provided no two addresses of the
    file differ in case only. *)
Theorem loaded_wallets_findable entries processed :
  NoDup ((fun e : string * string => toLowerCase e.1) <$> entries) ->
  (forall a name, (a, name) ∈ entries -> name <> "") ->
  findable {| NAMED_WALLETS := list_to_map entries;
              NORMALIZED_WALLETS := normalizeWallets entries;
              lastProcessedTx := processed |}.
Proof.
  intros Hnd Hnames a name Hlook. simpl in *.
  apply elem_of_list_to_map_2 in Hlook.
  split; [by apply (Hnames a)|].
  by apply normalize_lookup.
Qed.

Lemma formatWalletName_nonempty address description :
  matchesAddress address = true -> formatWalletName address description <> "".
Proof.
  unfold matchesAddress, formatWalletName.
  destruct address as [|c0 [|c1 digits]]; try done;
    intros _; cbn [String.substring];
    (destruct (String.eqb description ""); [done|]);
    by rewrite append_String.
Qed.

(** What [addNewWallet] returns and leaves: it does not throw, and it
    either leaves the registry as it was or has written the new name under
    the address and under its lower case. *)
Lemma addNewWallet_cases out address description reg w :
  exists reg' w',
    addNewWallet out address description reg w = (Returned reg', w') /\
    ((reg' = reg /\ w' = w /\
      (matchesAddress address = false \/
       truthyAt (NORMALIZED_WALLETS reg) (toLowerCase address) = true)) \/
     (matchesAddress address = true /\
      truthyAt (NORMALIZED_WALLETS reg) (toLowerCase address) = false /\
      NAMED_WALLETS reg'
        = <[address := formatWalletName address description]> (NAMED_WALLETS reg) /\
      NORMALIZED_WALLETS reg'
        = <[toLowerCase address := formatWalletName address description]>
            (NORMALIZED_WALLETS reg))).
Proof.
  unfold addNewWallet.
  destruct (matchesAddress address) eqn:Hvalid; simpl;
    [|exists reg, w; split; [done|left; auto]].
  destruct (truthyAt _ _) eqn:Hknown;
    [exists reg, w; split; [done|left; auto]|].
  unfold describeNewWallet, try_catch, mbind, M_bind.
  destruct (fetchTransactions_fuel_total out address (MAX_RETRIES - 0) O w)
    as (txs & w1 & new & Hrun & _); [lia|].
  unfold fetchTransactions. rewrite Hrun.
  eexists _, w1. split; [done|]. right. by simpl.
Qed.

(** X16: [addNewWallet] keeps every wallet findable under the lower case of
    its address, whatever address and description it is given. *)
Theorem addNewWallet_keeps_findable out address description reg w :
  findable reg ->
  exists reg' w',
    addNewWallet out address description reg w = (Returned reg', w') /\
    findable reg'.
Proof.
  intros Hfind.
  destruct (addNewWallet_cases out address description reg w)
    as (reg' & w' & Hrun & Hcases).
  exists reg', w'. split; [done|].
  destruct Hcases as [(-> & _)|(Hvalid & Hnew & Hnamed & Hnorm)]; [done|].
  intros a name. rewrite Hnamed, Hnorm.
  destruct (decide (address = a)) as [<-|Hne].
  - rewrite !lookup_insert_eq. intros [= <-].
    split; [by apply formatWalletName_nonempty|done].
  - rewrite lookup_insert_ne by done. intros Hlook.
    destruct (Hfind a name Hlook) as [Hname Hnormal]. split; [done|].
    rewrite lookup_insert_ne; [done|]. intros Heq.
    unfold truthyAt in Hnew. rewrite Heq, Hnormal in Hnew.
    by destruct (String.eqb_spec name "").
Qed.

(** X17: once an address has been given to [addNewWallet] in the right
    form, the same address in any other case is refused: the registry stays as it
    is. *)
Theorem addNewWallet_refuses_other_case out address description reg w reg1 w1
    address' description' w2 :
  matchesAddress address = true ->
  addNewWallet out address description reg w = (Returned reg1, w1) ->
  toLowerCase address' = toLowerCase address ->
  addNewWallet out address' description' reg1 w2 = (Returned reg1, w2).
Proof.
  intros Hvalid Hrun Hcase.
  assert (truthyAt (NORMALIZED_WALLETS reg1) (toLowerCase address) = true)
    as Hknown.
  { destruct (addNewWallet_cases out address description reg w)
      as (reg' & w' & Hrun' & Hcases).
    rewrite Hrun in Hrun'. injection Hrun' as <- <-.
    destruct Hcases as [(-> & _ & [?|?])|(_ & _ & _ & Hnorm)];
      [congruence|done|].
    unfold truthyAt. rewrite Hnorm, lookup_insert_eq.
    pose proof (formatWalletName_nonempty address description Hvalid).
    by destruct (String.eqb_spec (formatWalletName address description) ""). }
  unfold addNewWallet. rewrite Hcase, Hknown.
  by destruct (matchesAddress address').
Qed.

Lemma assign_notin entries : forall (acc : gmap string string) k,
  k ∉ entries.*1 ->
  foldl (fun acc entry => <[entry.1 := entry.2]> acc) acc entries !! k
  = acc !! k.
Proof.
  induction entries as [|e entries IH]; intros acc k Hk; [done|].
  cbn [foldl]. rewrite fmap_cons in Hk. apply not_elem_of_cons in Hk as [Hne Hk].
  rewrite IH by done. by apply lookup_insert_ne.
Qed.

Lemma assign_lookup entries : forall (acc : gmap string string) a name,
  NoDup entries.*1 ->
  (a, name) ∈ entries ->
  foldl (fun acc entry => <[entry.1 := entry.2]> acc) acc entries !! a
  = Some name.
Proof.
  induction entries as [|e entries IH]; intros acc a name Hnd Hin;
    [by apply elem_of_nil in Hin|].
  rewrite fmap_cons in Hnd. apply NoDup_cons in Hnd as [Hfresh Hnd].
  cbn [foldl]. apply elem_of_cons in Hin as [<-|Hin].
  - rewrite assign_notin by done. apply lookup_insert_eq.
  - by apply IH.
Qed.

Lemma formatWalletName_address address description :
  address <> "" -> formatWalletName address description <> "".
Proof.
  unfold formatWalletName. destruct address as [|c address]; [done|].
  intros _. cbn [String.substring].
  destruct (String.eqb description ""); [done|]. by rewrite append_String.
Qed.

(** X14: after [updateExistingWallets] every wallet has a name and is found
    under the lower case of its address, whatever [NORMALIZED_WALLETS] held
    before, provided no two addresses of [NAMED_WALLETS] differ in case only
    and none is the empty string. *)
Theorem updateExistingWallets_findable entries reg :
  entries ≡ₚ map_to_list (NAMED_WALLETS reg) ->
  NoDup ((fun e : string * string => toLowerCase e.1) <$> entries) ->
  NAMED_WALLETS reg !! "" = None ->
  findable (updateExistingWallets entries reg).
Proof.
  intros Hperm Hnd Hempty a name. unfold updateExistingWallets. cbn.
  set (updated := (fun entry : string * string =>
                     (entry.1, updatedName entry.1 entry.2)) <$> entries).
  assert (updated.*1 = entries.*1) as Hkeys.
  { unfold updated. rewrite <- list_fmap_compose. done. }
  assert (NoDup entries.*1) as Hnd1.
  { rewrite Hperm. apply NoDup_fst_map_to_list. }
  assert ((fun e : string * string => toLowerCase e.1) <$> updated
          = (fun e : string * string => toLowerCase e.1) <$> entries) as Hlow.
  { unfold updated. rewrite <- list_fmap_compose. done. }
  destruct (decide (a ∈ entries.*1)) as [Hin|Hout].
  - apply list_elem_of_fmap in Hin as ([a' fullName] & -> & Hin). simpl.
    assert ((a', updatedName a' fullName) ∈ updated) as Hup.
    { unfold updated. apply list_elem_of_fmap. by exists (a', fullName). }
    rewrite (assign_lookup updated _ a' (updatedName a' fullName))
      by (by rewrite ?Hkeys).
    intros [= <-]. split.
    + apply formatWalletName_address. intros ->.
      rewrite Hperm in Hin. apply elem_of_map_to_list in Hin. congruence.
    + apply normalize_lookup; [by rewrite Hlow|done].
  - rewrite assign_notin by (by rewrite Hkeys). intros Hlook.
    destruct Hout. apply list_elem_of_fmap. exists (a, name).
    split; [done|]. rewrite Hperm. by apply elem_of_map_to_list.
Qed.

(** ** The deployer monitor *)

Lemma Deployer_check_other address transactions (lp : gmap string string) a :
  address <> a ->
  (Deployer.check address transactions lp).1 !! a = lp !! a /\
  Deployer.alertedHashes a (Deployer.check address transactions lp).2 = [].
Proof.
  intros Hne. unfold Deployer.check, Deployer.alertedHashes.
  destruct transactions as [|tx l]; [done|].
  destruct (Deployer.unseen lp address tx); [|done]. simpl.
  split; [by apply lookup_insert_ne|]. by rewrite filter_cons_False.
Qed.

Lemma Deployer_alertedHashes_app a l1 l2 :
  Deployer.alertedHashes a (l1 ++ l2)
  = Deployer.alertedHashes a l1 ++ Deployer.alertedHashes a l2.
Proof. unfold Deployer.alertedHashes. by rewrite filter_app, fmap_app. Qed.

(** X18: an alert for a deployer wallet never shows the transaction of the
    alert before it, nor, for the first alert, the transaction that was
    stored for the wallet, as long as the first transaction of every result
    has a hash that is not empty.  The results may come in any order, so
    this holds for passes that overlap as well. *)
Theorem Deployer_no_repeated_alert observed (lp : gmap string string) a :
  (forall address tx l, (address, tx :: l) ∈ observed -> Tx.hash tx <> "") ->
  Deployer.noRepeat (lp !! a)
    (Deployer.alertedHashes a (Deployer.watch observed lp).2).
Proof.
  revert lp. induction observed as [|[address transactions] observed IH];
    intros lp Hhash; [done|].
  cbn [Deployer.watch].
  specialize (fun lp' => IH lp' ltac:(intros b tx l ?; apply (Hhash b tx l); by right)).
  destruct (decide (address = a)) as [->|Hne].
  - unfold Deployer.check.
    destruct transactions as [|tx l].
    { specialize (IH lp). by destruct (Deployer.watch observed lp). }
    destruct (Deployer.unseen lp a tx) eqn:Hnew.
    + specialize (IH (<[a := Tx.hash tx]> lp)).
      destruct (Deployer.watch observed _) as [lp2 more]. cbn [snd].
      rewrite Deployer_alertedHashes_app. unfold Deployer.alertedHashes at 1.
      rewrite filter_cons_True by done. simpl.
      rewrite lookup_insert_eq in IH. split; [|done].
      unfold Deployer.unseen in Hnew.
      destruct (lp !! a) as [h|]; [|done]. intros [= ->].
      pose proof (Hhash a tx l ltac:(by left)) as Hh.
      apply orb_true_iff in Hnew as [Hnew|Hnew].
      * by apply String.eqb_eq in Hnew.
      * by rewrite String.eqb_refl in Hnew.
    + specialize (IH lp). by destruct (Deployer.watch observed lp).
  - destruct (Deployer_check_other address transactions lp a Hne) as [Hlp Hnone].
    destruct (Deployer.check address transactions lp) as [lp1 alerts].
    simpl in *. specialize (IH lp1).
    destruct (Deployer.watch observed lp1) as [lp2 more]. cbn [snd].
    rewrite Deployer_alertedHashes_app, Hnone. simpl. by rewrite <- Hlp.
Qed.

(** X19: what is stored for a deployer wallet is the hash of the transaction
    that was first in its last result that was not empty, whether an alert
    was sent for it or not; without such a result it is what was stored
    before. *)
Theorem Deployer_stores_last_seen observed (lp : gmap string string) a :
  (Deployer.watch observed lp).1 !! a
  = match Deployer.lastSeen a observed with
    | Some h => Some h
    | None => lp !! a
    end.
Proof.
  revert lp. induction observed as [|[address transactions] observed IH];
    intros lp; [done|].
  cbn [Deployer.watch Deployer.lastSeen].
  assert ((Deployer.check address transactions lp).1 !! a
          = match (if decide (address = a)
                   then Tx.hash <$> head transactions else None) with
            | Some h => Some h
            | None => lp !! a
            end) as Hstep.
  { destruct (decide (address = a)) as [->|Hne];
      [|by apply Deployer_check_other].
    unfold Deployer.check. destruct transactions as [|tx l]; [done|].
    simpl. destruct (Deployer.unseen lp a tx) eqn:Hnew; simpl.
    - apply lookup_insert_eq.
    - unfold Deployer.unseen in Hnew. destruct (lp !! a) as [h|]; [|done].
      apply orb_false_iff in Hnew as [_ Hnew].
      apply negb_false_iff, String.eqb_eq in Hnew. by subst. }
  destruct (Deployer.check address transactions lp) as [lp1 alerts].
  specialize (IH lp1). destruct (Deployer.watch observed lp1) as [lp2 more].
  simpl in *. rewrite IH.
  by destruct (Deployer.lastSeen a observed).
Qed.



(** ** The properties at examples *)

Lemma addressedTo_Forall fs :
  Forall (fun f => Forall (fun tx => toLowerCase (Tx.to tx) = f_address f)
                          (f_transactions f)) fs ->
  addressedTo fs.
Proof.
  intros Hall f tx Hf Htx.
  rewrite Forall_forall in Hall. specialize (Hall f Hf).
  rewrite Forall_forall in Hall. by apply Hall.
Qed.

Lemma matchesAddress_noParen address :
  matchesAddress address = true ->
  noParen (String.substring 0 7 address) = true.
Proof.
  assert (forall s, allHex s = true -> noParen s = true) as Hhex.
  { induction s as [|c s IH]; simpl; [done|].
    intros [Hc Hs]%andb_true_iff. rewrite (IH Hs), andb_true_r.
    destruct (Ascii.eqb_spec c "("%char) as [->|]; [done|done]. }
  assert (forall n s, noParen s = true -> noParen (String.substring 0 n s) = true)
    as Hsub.
  { induction n as [|n IH]; intros [|c s]; simpl; try done.
    intros [Hc Hs]%andb_true_iff. by rewrite Hc, (IH s Hs). }
  unfold matchesAddress. destruct address as [|c0 address]; [done|].
  destruct (Ascii.eqb_spec c0 "0"%char) as [->|Hc0];
    [|by destruct c0 as [[] [] [] [] [] [] [] []]].
  destruct address as [|c1 digits]; [done|].
  destruct (Ascii.eqb_spec c1 "x"%char) as [->|Hc1];
    [|by destruct c1 as [[] [] [] [] [] [] [] []]].
  intros [_ Hdigits]%andb_true_iff.
  apply Hsub. simpl. by apply Hhex.
Qed.

Lemma alerts_alternate_witness :
  addressedTo (sampleTicks ≫= snd) /\
  alternating (isSpamming (stateOf "0xabc" ∅))
    (alert_type <$> alertsFor "0xabc" (monitoring sampleTicks ∅).2).
Proof.
  assert (addressedTo (sampleTicks ≫= snd)) as Haddr.
  { apply addressedTo_Forall. by repeat constructor. }
  split; [done|]. by apply (alerts_alternate sampleTicks ∅ "0xabc").
Defined.

Lemma quiet_address_untouched_witness :
  (forall currentBlock batch f,
      (currentBlock, batch) ∈ sampleTicks -> currentBlock <> 0 -> f ∈ batch ->
      f_address f = "0xdef" -> f_transactions f = []) /\
  (monitoring sampleTicks ∅).1 !! "0xdef" = (∅ : gmap string WalletState) !! "0xdef".
Proof.
  assert (forall currentBlock batch f,
      (currentBlock, batch) ∈ sampleTicks -> currentBlock <> 0 -> f ∈ batch ->
      f_address f = "0xdef" -> f_transactions f = []) as Hquiet.
  { intros currentBlock batch f Hin Hcb Hf Ha. unfold sampleTicks in Hin.
    repeat (apply elem_of_cons in Hin as [Hin|Hin]);
      [..|by apply elem_of_nil in Hin]; injection Hin as -> ->; try done;
      repeat (apply elem_of_cons in Hf as [Hf|Hf]);
      try (by apply elem_of_nil in Hf); by subst f. }
  split; [done|]. by apply (quiet_address_untouched sampleTicks ∅ "0xdef").
Defined.

Lemma alert_shows_recorded_witness :
  let al := {| alert_tx := sampleTx "h102" 102; alert_type := start |} in
  NoDup (f_address <$> sampleBatch) /\
  (forall f, f ∈ sampleBatch -> newestFirst (f_transactions f)) /\
  al ∈ (monitorWalletBatch 103 sampleBatch ∅).2 /\
  exists f, f ∈ sampleBatch /\
    head (f_transactions f) = Some (alert_tx al) /\
    (monitorWalletBatch 103 sampleBatch ∅).1 !! f_address f
    = Some (recordedBy al (f_now f)).
Proof.
  intros al.
  assert (NoDup (f_address <$> sampleBatch)) as Hnd.
  { apply (bool_decide_unpack _). by vm_compute. }
  assert (forall f, f ∈ sampleBatch -> newestFirst (f_transactions f)) as Hnew.
  { intros f Hf. unfold sampleBatch in Hf.
    repeat (apply elem_of_cons in Hf as [->|Hf]);
      [..|by apply elem_of_nil in Hf]; unfold newestFirst; simpl;
      repeat constructor; simpl; lia. }
  assert (al ∈ (monitorWalletBatch 103 sampleBatch ∅).2) as Hal.
  { assert ((monitorWalletBatch 103 sampleBatch ∅).2 = [al]) as ->
      by (by vm_compute).
    by left. }
  split; [done|]. split; [done|]. split; [done|].
  by apply (alert_shows_recorded 103 sampleBatch ∅ al).
Defined.

Lemma alert_names_monitored_contract_witness :
  let normalized : gmap string string := {[ "0xabc" := "0xABC12 (router)" ]} in
  normalized !! toLowerCase "0xABC" = Some "0xABC12 (router)" /\
  "0xABC12 (router)" <> "" /\
  sampleTx "h102" 102 ∈ rowsFor "0xABC" "1" (Some [sampleTx "h102" 102]) /\
  contractName normalized (sampleTx "h102" 102) = "0xABC12 (router)".
Proof.
  intros normalized.
  assert (sampleTx "h102" 102 ∈ rowsFor "0xABC" "1" (Some [sampleTx "h102" 102]))
    as Hin.
  { assert (rowsFor "0xABC" "1" (Some [sampleTx "h102" 102])
            = [sampleTx "h102" 102]) as -> by (by vm_compute).
    by left. }
  split; [done|]. split; [done|]. split; [done|].
  by apply (alert_names_monitored_contract normalized "0xABC"
              "0xABC12 (router)" "1" (Some [sampleTx "h102" 102])).
Defined.

Lemma splitIntoChunks_bound_witness :
  let chunk := String.list_ascii_of_string "b" ++ ["010"; "010"]%char
               ++ String.list_ascii_of_string "ccccccccc" in
  chunk ∈ splitIntoChunks "010"%char sampleItems 10 /\
  ((length chunk <= 10 + 2)%nat \/ chunk ∈ sampleItems).
Proof.
  intros chunk.
  assert (chunk ∈ splitIntoChunks "010"%char sampleItems 10) as Hin.
  { apply (bool_decide_unpack _). by vm_compute. }
  split; [done|].
  by apply (splitIntoChunks_bound "010"%char sampleItems 10 chunk).
Defined.

Lemma splitIntoChunks_empty_chunk_witness :
  (forall item, item ∈ sampleItems -> item <> []) /\
  ([] ∈ splitIntoChunks "010"%char sampleItems 10 <->
   exists item rest, sampleItems = item :: rest /\ (10 < length item)%nat).
Proof.
  assert (forall item, item ∈ sampleItems -> item <> []) as Hne.
  { intros item Hin. unfold sampleItems in Hin. rewrite !fmap_cons in Hin.
    repeat (apply elem_of_cons in Hin as [->|Hin]);
      [done..|by apply elem_of_nil in Hin]. }
  split; [done|].
  by apply (splitIntoChunks_empty_chunk "010"%char sampleItems 10).
Defined.

Lemma formatWalletName_read_back_witness :
  noParen (String.substring 0 7 sampleAddress) = true /\
  oneLine "router v2" = true /\
  descriptionOf (formatWalletName sampleAddress "router v2") = "router v2" /\
  statusName (formatWalletName sampleAddress "router v2")
  = (if String.eqb "router v2" "" then String.substring 0 7 sampleAddress
     else String.substring 0 7 sampleAddress +:+ " ", "router v2").
Proof.
  split; [done|]. split; [done|].
  by apply (formatWalletName_read_back sampleAddress "router v2").
Defined.

Lemma updatedName_idempotent_witness :
  noParen (String.substring 0 7 sampleAddress) = true /\
  updatedName sampleAddress (updatedName sampleAddress "Router (old (v1))")
  = updatedName sampleAddress "Router (old (v1))".
Proof.
  split; [done|].
  by apply (updatedName_idempotent sampleAddress "Router (old (v1))").
Defined.

Lemma loaded_wallets_findable_witness :
  NoDup ((fun e : string * string => toLowerCase e.1) <$> sampleEntries) /\
  (forall a name, (a, name) ∈ sampleEntries -> name <> "") /\
  findable {| NAMED_WALLETS := list_to_map sampleEntries;
              NORMALIZED_WALLETS := normalizeWallets sampleEntries;
              lastProcessedTx := ∅ |}.
Proof.
  assert (NoDup ((fun e : string * string => toLowerCase e.1) <$> sampleEntries))
    as Hnd.
  { apply (bool_decide_unpack _). by vm_compute. }
  assert (forall a name, (a, name) ∈ sampleEntries -> name <> "") as Hnames.
  { intros a name Hin. unfold sampleEntries in Hin.
    repeat (apply elem_of_cons in Hin as [[= -> ->]|Hin]);
      [done..|by apply elem_of_nil in Hin]. }
  split; [done|]. split; [done|].
  by apply (loaded_wallets_findable sampleEntries ∅).
Defined.

Lemma addNewWallet_keeps_findable_witness :
  findable emptyRegistry /\
  exists reg' w',
    addNewWallet flakyOutside sampleAddress "router" emptyRegistry
      (initialWorld flakyOutside 1700000000000) = (Returned reg', w') /\
    findable reg'.
Proof.
  assert (findable emptyRegistry) as Hfind.
  { intros a name Hlook. simpl in Hlook. by rewrite lookup_empty in Hlook. }
  split; [done|].
  by apply (addNewWallet_keeps_findable flakyOutside sampleAddress "router"
              emptyRegistry (initialWorld flakyOutside 1700000000000)).
Defined.

Lemma addNewWallet_refuses_other_case_witness :
  let w := initialWorld flakyOutside 1700000000000 in
  let run := addNewWallet flakyOutside sampleAddress "router" emptyRegistry w in
  exists reg1,
    matchesAddress sampleAddress = true /\
    run = (Returned reg1, run.2) /\
    toLowerCase sampleAddressLower = toLowerCase sampleAddress /\
    addNewWallet flakyOutside sampleAddressLower "other" reg1 run.2
    = (Returned reg1, run.2).
Proof.
  intros w run.
  destruct (addNewWallet_cases flakyOutside sampleAddress "router"
              emptyRegistry w) as (reg1 & w1 & Hrun & _).
  fold run in Hrun. exists reg1.
  assert (run = (Returned reg1, run.2)) as Hrun' by (by rewrite Hrun).
  split; [done|]. split; [done|]. split; [done|].
  by apply (addNewWallet_refuses_other_case flakyOutside sampleAddress "router"
              emptyRegistry w reg1 run.2 sampleAddressLower "other" run.2).
Defined.

Lemma bursting_state_is_start_state_witness :
  isSpamming (stateOf "0xabc" (monitor [burstCall] ∅).1) = true /\
  (stateOf "0xabc" (monitor [burstCall] ∅).1
   = stateOf "0xabc" (∅ : gmap string WalletState) \/
   exists c top,
     c ∈ [burstCall] /\ address c = "0xabc" /\
     head (recentTxs (txs c)) = Some top /\
     stateOf "0xabc" (monitor [burstCall] ∅).1
     = afterTransition true top (at_time c)).
Proof.
  assert (isSpamming (stateOf "0xabc" (monitor [burstCall] ∅).1) = true)
    as Hspam by (by vm_compute).
  split; [done|].
  by apply (bursting_state_is_start_state [burstCall] ∅ "0xabc").
Defined.

Lemma getCurrentBlockNumber_recovers_witness :
  let w := initialWorld slowHeight 1700000000000 in
  (2 <= MAX_RETRIES)%nat /\
  (forall i, (i < 2)%nat ->
             heightFails (eth_blockNumber slowHeight (requests w + i))) /\
  eth_blockNumber slowHeight (requests w + 2) = HeightData (Some 25165824) /\
  exists w' new,
    getCurrentBlockNumber slowHeight 0 w = (Returned 25165824, w') /\
    follows w w' new /\ requestCount new = 3%nat /\
    RETRY_DELAY * triangle 2 <= slept new.
Proof.
  intros w.
  assert (forall i, (i < 2)%nat ->
             heightFails (eth_blockNumber slowHeight (requests w + i))) as Hfail.
  { intros [|[|i]] Hi; [done|done|lia]. }
  split; [unfold MAX_RETRIES; lia|]. split; [done|]. split; [done|].
  apply (getCurrentBlockNumber_recovers slowHeight w 2 25165824);
    [unfold MAX_RETRIES; lia|done|done].
Defined.

Lemma tick_runs_without_height_witness :
  (forall i, (i <= MAX_RETRIES)%nat ->
             heightFails (eth_blockNumber flakyOutside (requests seenWorld + i)))
  /\
  exists v w',
    getCurrentBlockNumber flakyOutside 0 seenWorld = (Returned v, w') /\ 0 < v /\
    forall batch (ws : gmap string WalletState),
      monitorWalletBatch v batch ws = classifyAll v batch ws.
Proof.
  assert (forall i, (i <= MAX_RETRIES)%nat ->
            heightFails (eth_blockNumber flakyOutside (requests seenWorld + i)))
    as Hfail.
  { intros [|[|[|[|i]]]] Hi; try done. }
  split; [done|]. by apply (tick_runs_without_height flakyOutside seenWorld).
Defined.

Lemma Deployer_no_repeated_alert_witness :
  (forall address tx l, (address, tx :: l) ∈ deployerPasses -> Tx.hash tx <> "")
  /\
  Deployer.noRepeat ((∅ : gmap string string) !! "0xdep")
    (Deployer.alertedHashes "0xdep" (Deployer.watch deployerPasses ∅).2).
Proof.
  assert (forall address tx l,
             (address, tx :: l) ∈ deployerPasses -> Tx.hash tx <> "") as Hhash.
  { intros address tx l Hin. unfold deployerPasses in Hin.
    repeat (apply elem_of_cons in Hin as [Hin|Hin]);
      [..|by apply elem_of_nil in Hin]; by simplify_eq. }
  split; [done|].
  by apply (Deployer_no_repeated_alert deployerPasses ∅ "0xdep").
Defined.

Lemma updateExistingWallets_findable_witness :
  let entries := [ (sampleAddress, "Router (v1)"); ("0xABC", "Pool") ] in
  entries ≡ₚ map_to_list (NAMED_WALLETS staleRegistry) /\
  NoDup ((fun e : string * string => toLowerCase e.1) <$> entries) /\
  NAMED_WALLETS staleRegistry !! "" = None /\
  findable (updateExistingWallets entries staleRegistry).
Proof.
  intros entries.
  assert (entries ≡ₚ map_to_list (NAMED_WALLETS staleRegistry)) as Hperm.
  { symmetry. apply map_to_list_to_map.
    apply (bool_decide_unpack _). by vm_compute. }
  assert (NoDup ((fun e : string * string => toLowerCase e.1) <$> entries))
    as Hnd.
  { apply (bool_decide_unpack _). by vm_compute. }
  split; [done|]. split; [done|]. split; [done|].
  by apply (updateExistingWallets_findable entries staleRegistry).
Defined.
